(** * FX: a lazy reactive tree with two-way DOM binding (src/FX.js)

    Shallow embedding of [FX.js].  JavaScript objects that the program
    shares by reference (DOM elements, reactive-node records, the root
    object) live in an explicit store and are named by references; every
    function of the source becomes a function on that store.

    The host document is a collaborator of the program, not part of it.
    It is modelled as a store of element objects whose properties are
    plain fields (a write stores the JavaScript value it is given, the
    host's own coercions are not modelled) together with the document's
    selector query, which may reject a selector with a syntax error.

    Two references name every node: the record [{ value, attr, DOM }]
    and the proxy wrapped around it.  They share one [NodeRef]; what
    tells them apart is the operation used: [node_get] and [node_set]
    are the proxy's traps, [target_get] and [target_update] act on the
    record itself.  [bindDOM] receives the record (the [get] trap passes
    it [target]), so everything [bindDOM] and its listeners do to the
    node is done to the record.

    [DOM] is an ordinary property of the record: it starts as the empty
    array, [bindDOM] pushes into it, and the [set] trap lets a caller
    replace it by any value, after which the loops over it behave as
    JavaScript makes them (they throw when it is not an array).  The
    prototype of an object is not part of the store: an assignment to
    [__proto__] is outside the model, and the stores the invariants
    speak about ([reachable]) are built without one. *)

From Stdlib Require Import ZArith String Ascii.
From stdpp Require Import base option list gmap strings pretty.

Local Open Scope string_scope.
Local Open Scope list_scope.
Set Warnings "-register-all".

(** ** JavaScript values *)

Abbreviation ElemRef := nat (only parsing).
Abbreviation NodeRef := nat (only parsing).

(** The values a caller assigns and the properties hold: plain data, a
    DOM element, or an array of DOM elements (what [DOM] is).  An array
    value stands for an array of its own, as an array literal makes it:
    no two properties share one, and a caller keeping the very array a
    node holds in order to change it in place is not expressed.
    Functions and arrays of anything else than elements are not part of
    the values. *)
Inductive JsValue : Type :=
| JUndefined
| JNull
| JBool (b : bool)
| JNum (z : Z)
| JStr (s : string)
| JObj (entries : list (string * JsValue))
| JElem (e : ElemRef)
| JElems (l : list ElemRef).

(** [!v] is [negb (truthy v)]. *)
Definition truthy (v : JsValue) : bool :=
  match v with
  | JUndefined | JNull => false
  | JBool b => b
  | JNum z => negb (Z.eqb z 0)
  | JStr s => negb (String.eqb s "")
  | JObj _ | JElem _ | JElems _ => true
  end.

(** [v === "s"] for a string literal [s]. *)
Definition strict_eq_str (v : JsValue) (s : string) : bool :=
  match v with
  | JStr t => String.eqb t s
  | _ => false
  end.

(** Errors the program can raise (none is caught anywhere in FX.js). *)
Inductive JsError : Type :=
| TypeError
| SyntaxError.

(** [Object.entries(v)]: the own enumerable string-keyed pairs of [v].
    It throws a TypeError on [null] and [undefined]; a string yields its
    characters and an array its items, keyed by index; other primitives
    and a DOM element have no own pairs. *)
Definition string_entries (s : string) : list (string * JsValue) :=
  imap (fun i c => (pretty i, JStr (String c EmptyString)))
       (list_ascii_of_string s).

Definition Object_entries (v : JsValue) : JsError + list (string * JsValue) :=
  match v with
  | JUndefined | JNull => inl TypeError
  | JBool _ | JNum _ | JElem _ => inr []
  | JStr s => inr (string_entries s)
  | JObj es => inr es
  | JElems l => inr (imap (fun i e => (pretty i, JElem e)) l)
  end.

(** [s.includes(t)] on strings. *)
Definition string_includes (s t : string) : bool :=
  match String.index 0 t s with
  | Some _ => true
  | None => false
  end.

(** Names every ordinary object inherits from [Object.prototype]; the
    inherited members are functions or objects, hence truthy. *)
Definition object_prototype_names : list string :=
  [ "constructor"; "hasOwnProperty"; "isPrototypeOf";
    "propertyIsEnumerable"; "toLocaleString"; "toString"; "valueOf";
    "__proto__"; "__defineGetter__"; "__defineSetter__";
    "__lookupGetter__"; "__lookupSetter__" ].

Definition inherited (prop : string) : bool :=
  existsb (String.eqb prop) object_prototype_names.

(** ** The store *)

(** A registered listener [() => { node.value = getElementValue(element) }]:
    the closure captures the element it is attached to and [node], the
    record handed to [bindDOM]. *)
Record Listener : Type := mkListener {
  l_event : string;
  l_node : NodeRef
}.

(** A DOM element: the properties FX.js reads or writes. *)
Record Element : Type := mkElement {
  tagName : string;
  el_type : JsValue;
  el_value : JsValue;
  checked : JsValue;
  selectedIndex : JsValue;
  innerHTML : JsValue;
  attributes : gmap string JsValue;
  listeners : list Listener
}.

(** The record behind a reactive node,
    [{ value: null, attr: {}, DOM }], plus any other property a caller
    stored through the proxy.  [DOM] holds the array of bound elements
    until a caller assigns something else to it. *)
Record Node : Type := mkNode {
  value : JsValue;
  attr : JsValue;
  DOM : JsValue;
  extra : gmap string JsValue
}.

(** What a property of the root object can hold. *)
Inductive RootVal : Type :=
| RNode (n : NodeRef)        (* a reactive node (the proxy) *)
| RBuiltin (name : string)   (* a member inherited from Object.prototype *)
| RData (v : JsValue).       (* anything a caller stored directly *)

Definition root_truthy (r : RootVal) : bool :=
  match r with
  | RNode _ | RBuiltin _ => true
  | RData v => truthy v
  end.

(** The document ([doc_elements], [querySelectorAll], and
    [element_text], the text the host renders an element as, such as
    [[object HTMLInputElement]]), the node records and the root object. *)
Record State : Type := mkState {
  doc_elements : gmap ElemRef Element;
  querySelectorAll : string -> JsError + list ElemRef;
  element_text : ElemRef -> string;
  nodes : gmap NodeRef Node;
  root : gmap string RootVal
}.

(** The outcome of running a piece of the program: it returns a result
    or throws; either way the store keeps the writes made so far. *)
Inductive Outcome (A : Type) : Type :=
| Returned (a : A) (st : State)
| Thrown (e : JsError) (st : State).
Arguments Returned {A} a st.
Arguments Thrown {A} e st.

Definition final_state {A} (o : Outcome A) : State :=
  match o with
  | Returned _ st | Thrown _ st => st
  end.

(** Field updates. *)
Definition with_elements (f : gmap ElemRef Element -> gmap ElemRef Element)
    (st : State) : State :=
  mkState (f (doc_elements st)) (querySelectorAll st) (element_text st)
          (nodes st) (root st).

Definition with_nodes (f : gmap NodeRef Node -> gmap NodeRef Node)
    (st : State) : State :=
  mkState (doc_elements st) (querySelectorAll st) (element_text st)
          (f (nodes st)) (root st).

Definition with_root (f : gmap string RootVal -> gmap string RootVal)
    (st : State) : State :=
  mkState (doc_elements st) (querySelectorAll st) (element_text st)
          (nodes st) (f (root st)).

(** ** Binding-type and event inference (FX.js lines 82-104) *)

Definition inferBindingType (element : Element) : string :=
  if String.eqb (tagName element) "INPUT" || String.eqb (tagName element) "TEXTAREA"
  then "value"
  else if String.eqb (tagName element) "SELECT" then "selectedIndex"
  else if strict_eq_str (el_type element) "checkbox"
          || strict_eq_str (el_type element) "radio" then "checked"
  else "innerHTML".

Definition inferEventType (element : Element) : string :=
  if String.eqb (tagName element) "INPUT" || String.eqb (tagName element) "TEXTAREA"
  then "input"
  else if String.eqb (tagName element) "SELECT" then "change"
  else if strict_eq_str (el_type element) "checkbox"
          || strict_eq_str (el_type element) "radio" then "change"
  else "input".

Definition getElementValue (element : Element) : JsValue :=
  let type := inferBindingType element in
  if String.eqb type "value" then el_value element
  else if String.eqb type "checked" then checked element
  else if String.eqb type "selectedIndex" then selectedIndex element
  else innerHTML element.

(** [element[name]] for the four channel properties. *)
Definition element_prop (element : Element) (name : string) : JsValue :=
  if String.eqb name "value" then el_value element
  else if String.eqb name "checked" then checked element
  else if String.eqb name "selectedIndex" then selectedIndex element
  else if String.eqb name "innerHTML" then innerHTML element
  else JUndefined.

(** [element[name] = v] for the four channel properties; any other name
    leaves the modelled fields alone. *)
Definition write_prop (element : Element) (name : string) (v : JsValue) : Element :=
  if String.eqb name "value" then
    mkElement (tagName element) (el_type element) v (checked element)
      (selectedIndex element) (innerHTML element) (attributes element)
      (listeners element)
  else if String.eqb name "checked" then
    mkElement (tagName element) (el_type element) (el_value element) v
      (selectedIndex element) (innerHTML element) (attributes element)
      (listeners element)
  else if String.eqb name "selectedIndex" then
    mkElement (tagName element) (el_type element) (el_value element)
      (checked element) v (innerHTML element) (attributes element)
      (listeners element)
  else if String.eqb name "innerHTML" then
    mkElement (tagName element) (el_type element) (el_value element)
      (checked element) (selectedIndex element) v (attributes element)
      (listeners element)
  else element.

(** [element.setAttribute(key, v)]. *)
Definition setAttribute (element : Element) (key : string) (v : JsValue) : Element :=
  mkElement (tagName element) (el_type element) (el_value element)
    (checked element) (selectedIndex element) (innerHTML element)
    (<[key := v]> (attributes element)) (listeners element).

(** [element.addEventListener(eventType, closure)]: every call passes a
    new closure, so the listener is always appended. *)
Definition add_listener (element : Element) (l : Listener) : Element :=
  mkElement (tagName element) (el_type element) (el_value element)
    (checked element) (selectedIndex element) (innerHTML element)
    (attributes element) (listeners element ++ [l]).

(** Modelled from the spec: [updateDOM(element, type, value)] is called
    by [updateDOMValues] (FX.js line 68) but FX.js does not define it.
    Spec 4.5: "classify via 4.4 and write the node's current value into
    the corresponding channel", that is [element[type] = value]. *)
Definition updateDOM (element : Element) (type : string) (v : JsValue) : Element :=
  write_prop element type v.

(** ** Computations over the store *)

Definition M (A : Type) : Type := State -> Outcome A.

Definition ret {A} (a : A) : M A := fun st => Returned a st.
Definition throw {A} (e : JsError) : M A := fun st => Thrown e st.
Definition bind {A B} (c : M A) (k : A -> M B) : M B :=
  fun st =>
    match c st with
    | Returned a st' => k a st'
    | Thrown e st' => Thrown e st'
    end.
Definition modify (f : State -> State) : M unit := fun st => Returned tt (f st).

Notation "x <~ c ;;; k" := (bind c (fun x => k))
  (at level 100, c at next level, right associativity).
Notation "c >>> k" := (bind c (fun _ => k))
  (at level 100, right associativity).

(** [list.forEach(body)]: runs [body] on each item in order and stops
    at the first throw. *)
Fixpoint forEach {A} (l : list A) (body : A -> M unit) : M unit :=
  match l with
  | [] => ret tt
  | x :: l' => body x >>> forEach l' body
  end.

(** Raw writes to the record behind a node (no trap involved). *)
Definition set_value (v : JsValue) (nd : Node) : Node :=
  mkNode v (attr nd) (DOM nd) (extra nd).
Definition set_attr (v : JsValue) (nd : Node) : Node :=
  mkNode (value nd) v (DOM nd) (extra nd).
Definition set_DOM (v : JsValue) (nd : Node) : Node :=
  mkNode (value nd) (attr nd) v (extra nd).
Definition set_extra (prop : string) (v : JsValue) (nd : Node) : Node :=
  mkNode (value nd) (attr nd) (DOM nd) (<[prop := v]> (extra nd)).

(** [node.DOM.push(e)], for [DOM] an array. *)
Definition push_DOM (e : ElemRef) (nd : Node) : Node :=
  match DOM nd with
  | JElems l => set_DOM (JElems (l ++ [e])) nd
  | _ => nd
  end.

(** [target[prop] = v] on the record.  (An assignment to [__proto__]
    would set the record's prototype instead of a property; prototypes
    are not part of the store and the name is kept like any other.) *)
Definition target_set (prop : string) (v : JsValue) (nd : Node) : Node :=
  if String.eqb prop "value" then set_value v nd
  else if String.eqb prop "attr" then set_attr v nd
  else if String.eqb prop "DOM" then set_DOM v nd
  else set_extra prop v nd.

Definition target_update (n : NodeRef) (f : Node -> Node) : M unit :=
  modify (with_nodes (alter f n)).

Definition element_update (e : ElemRef) (f : Element -> Element) : M unit :=
  modify (with_elements (alter f e)).

(** ** DOM synchronizer (FX.js lines 65-79) *)

(** [node.DOM.forEach(body)]: the array method when [DOM] is an array;
    no other value has a [forEach] to call, which is a TypeError. *)
Definition DOM_forEach (node : Node) (body : ElemRef -> M unit) : M unit :=
  match DOM node with
  | JElems l => forEach l body
  | _ => throw TypeError
  end.

Definition updateDOMValues (n : NodeRef) : M unit :=
  fun st =>
    match nodes st !! n with
    | Some node =>
        DOM_forEach node (fun e =>
          element_update e (fun element =>
            let type := inferBindingType element in
            updateDOM element type (value node))) st
    | None => Returned tt st
    end.

Definition updateDOMAttributes (n : NodeRef) : M unit :=
  fun st =>
    match nodes st !! n with
    | Some node =>
        DOM_forEach node (fun e =>
          match Object_entries (attr node) with
          | inl err => throw err
          | inr entries =>
              forEach entries (fun kv =>
                element_update e (fun element =>
                  setAttribute element kv.1 kv.2))
          end) st
    | None => Returned tt st
    end.

(** ** bindDOM (FX.js lines 47-62) *)

(** The body of the loop, for one matched element.  When [DOM] is an
    array, [includes] and [push] are the array methods.  A string has an
    [includes] of its own, which looks for the element's text in it, but
    no [push]; any other value has no [includes], and calling it is a
    TypeError. *)
Definition bind_element (n : NodeRef) (e : ElemRef) : M unit :=
  fun st =>
    match nodes st !! n with
    | Some node =>
        match DOM node with
        | JElems l =>
            if bool_decide (e ∈ l) then Returned tt st
            else
              (target_update n (push_DOM e) >>>
               element_update e (fun element =>
                 let eventType := inferEventType element in
                 add_listener element (mkListener eventType n))) st
        | JStr s =>
            if string_includes s (element_text st e) then Returned tt st
            else Thrown TypeError st
        | _ => Thrown TypeError st
        end
    | None => Returned tt st
    end.

Definition bindDOM (selector : string) (n : NodeRef) : M NodeRef :=
  fun st =>
    match querySelectorAll st selector with
    | inl err => Thrown err st
    | inr elems => (forEach elems (bind_element n) >>> ret n) st
    end.

(** ** The reactive node proxy (FX.js lines 2-44) *)

(** A proxy can be called only if the object it wraps is a function;
    otherwise the call throws a TypeError and no trap runs. *)
Inductive TargetKind : Type :=
| PlainObject
| FunctionObject.

Definition proxy_call {A} (kind : TargetKind) (apply_trap : M A) : M A :=
  match kind with
  | FunctionObject => apply_trap
  | PlainObject => throw TypeError
  end.

(** The object returned for [$]: [new Proxy({}, { get, apply })], closed
    over [target]. *)
Record Binder : Type := mkBinder {
  binder_target : TargetKind;
  binder_node : NodeRef
}.

Inductive GetResult : Type :=
| GBinder (b : Binder)
| GData (v : JsValue)
| GBuiltin (name : string).

Definition createReactiveNode : M NodeRef :=
  fun st =>
    let n := fresh (dom (nodes st)) in
    Returned n (with_nodes (<[n := mkNode JNull (JObj []) (JElems []) ∅]>) st).

(** [target[prop]] on the record behind a node. *)
Definition target_get (node : Node) (prop : string) : GetResult :=
  if String.eqb prop "value" then GData (value node)
  else if String.eqb prop "attr" then GData (attr node)
  else if String.eqb prop "DOM" then GData (DOM node)
  else match extra node !! prop with
       | Some v => GData v
       | None => if inherited prop then GBuiltin prop else GData JUndefined
       end.

(** The [get] trap of the node proxy.  The binder wraps the object
    literal [{}], a plain object. *)
Definition node_get (n : NodeRef) (prop : string) (st : State) : GetResult :=
  if String.eqb prop "$" then GBinder (mkBinder PlainObject n)
  else match nodes st !! n with
       | Some node => target_get node prop
       | None => GData JUndefined
       end.

(** The [set] trap of the node proxy.  Its last branch is a plain write
    to the record, so assigning to [DOM] replaces the array. *)
Definition node_set (n : NodeRef) (prop : string) (v : JsValue) : M bool :=
  if String.eqb prop "value" then
    target_update n (set_value v) >>>
    updateDOMValues n >>>
    ret true
  else if String.eqb prop "attr" then
    target_update n (set_attr v) >>>
    updateDOMAttributes n >>>
    ret true
  else
    target_update n (target_set prop v) >>>
    ret true.

(** The [get] and [apply] traps of the binder proxy. *)
Definition binder_get (b : Binder) (domProp : string) : M NodeRef :=
  bindDOM domProp (binder_node b).

Definition arg0 (args : list string) : string :=
  default "undefined" (head args).

Definition binder_apply (b : Binder) (args : list string) : M NodeRef :=
  bindDOM (arg0 args) (binder_node b).

(** The two call shapes: [node.$.p] and [node.$(s)]. *)
Definition dollar_dot (n : NodeRef) (p : string) : M NodeRef :=
  fun st =>
    match node_get n "$" st with
    | GBinder b => binder_get b p st
    | _ => Thrown TypeError st
    end.

Definition dollar_call (n : NodeRef) (args : list string) : M NodeRef :=
  fun st =>
    match node_get n "$" st with
    | GBinder b => proxy_call (binder_target b) (binder_apply b args) st
    | _ => Thrown TypeError st
    end.

(** ** The root object (FX.js lines 107-114) *)

(** [target[prop]] on the root's object [{}]: an own property, else a
    member inherited from [Object.prototype], else [undefined]. *)
Definition target_lookup (own : gmap string RootVal) (prop : string) : RootVal :=
  match own !! prop with
  | Some r => r
  | None => if inherited prop then RBuiltin prop else RData JUndefined
  end.

(** The [get] trap of [fx]. *)
Definition fx_get (prop : string) : M RootVal :=
  fun st =>
    ((if negb (root_truthy (target_lookup (root st) prop)) then
        (n <~ createReactiveNode ;;;
         modify (with_root (<[prop := RNode n]>)))
      else ret tt) >>>
     (fun st' => Returned (target_lookup (root st') prop) st')) st.

(** [fx[prop] = r]: the root proxy has no [set] trap, so the write goes
    to the wrapped object as an ordinary own property (the name
    [__proto__], which would replace the prototype instead, excepted). *)
Definition fx_assign (prop : string) (r : RootVal) : M unit :=
  modify (with_root (<[prop := r]>)).

(** ** The host: event dispatch and user edits *)

(** Running a listener registered by [bindDOM]:
    [node.value = getElementValue(element)], where [node] is the record
    [bindDOM] received. *)
Definition run_listener (e : ElemRef) (l : Listener) : M unit :=
  fun st =>
    match doc_elements st !! e with
    | Some element =>
        target_update (l_node l) (set_value (getElementValue element)) st
    | None => Returned tt st
    end.

(** The host fires [eventType] at element [e]: its listeners for that
    event run in registration order. *)
Definition dispatchEvent (e : ElemRef) (eventType : string) : M unit :=
  fun st =>
    match doc_elements st !! e with
    | Some element =>
        forEach (filter (fun l => l_event l = eventType) (listeners element))
                (run_listener e) st
    | None => Returned tt st
    end.

(** The user edits an element: the host writes one of its properties. *)
Definition host_write (e : ElemRef) (name : string) (v : JsValue) : M unit :=
  element_update e (fun element => write_prop element name v).

(** ** Sample documents *)

Definition blank (tag : string) (type : JsValue) : Element :=
  mkElement tag type (JStr "") (JBool false) (JNum (-1)) (JStr "") ∅ [].

(** Two text inputs; the selector [input] matches both. *)
Definition two_inputs : State :=
  mkState (<[0 := blank "INPUT" (JStr "text")]>
             (<[1 := blank "INPUT" (JStr "text")]> ∅))
          (fun sel => if String.eqb sel "input" then inr [0; 1]
                      else if String.eqb sel "" then inl SyntaxError
                      else inr [])
          (fun _ => "[object HTMLInputElement]")
          ∅ ∅.

Definition run {A} (c : M A) (st : State) : State := final_state (c st).

(** * Vocabulary of the properties *)

(** ** What one loop iteration does *)

(** The elements of the array [DOM] holds; none when it is no array. *)
Definition bound (node : Node) : list ElemRef :=
  match DOM node with
  | JElems l => l
  | _ => []
  end.

(** What [updateDOMValues] does to one bound element. *)
Definition push_value (v : JsValue) (element : Element) : Element :=
  updateDOM element (inferBindingType element) v.

(** What [updateDOMAttributes] does to one bound element. *)
Definition apply_entries (entries : list (string * JsValue)) (element : Element)
    : Element :=
  foldl (fun el kv => setAttribute el kv.1 kv.2) element entries.

(** The value a key ends up with after the pairs are applied in order. *)
Fixpoint last_value (k : string) (entries : list (string * JsValue)) : option JsValue :=
  match entries with
  | [] => None
  | (k', v) :: rest =>
      match last_value k rest with
      | Some w => Some w
      | None => if decide (k = k') then Some v else None
      end
  end.

(** The pairs [updateDOMAttributes] applies for an [attr] value: those
    of [Object.entries], none when it throws. *)
Definition applied_pairs (v : JsValue) : list (string * JsValue) :=
  match Object_entries v with
  | inr entries => entries
  | inl _ => []
  end.

(** [null] and [undefined], the values [Object.entries] rejects. *)
Definition nullish (v : JsValue) : bool :=
  match v with
  | JUndefined | JNull => true
  | _ => false
  end.

(** What [bindDOM] does to an element it binds to node [n]. *)
Definition listen (n : NodeRef) (element : Element) : Element :=
  add_listener element (mkListener (inferEventType element) n).

(** The store one iteration of the loop in [bindDOM] leaves, whether
    the iteration returns or throws. *)
Definition bind_step (n : NodeRef) (e : ElemRef) (st : State) : State :=
  match nodes st !! n with
  | Some node =>
      match DOM node with
      | JElems l =>
          if bool_decide (e ∈ l) then st
          else with_elements (alter (listen n) e)
                 (with_nodes (alter (push_DOM e) n) st)
      | _ => st
      end
  | None => st
  end.

(** ** The channel table of the spec *)

(** An element whose [type] is [checkbox] or [radio]. *)
Definition boxed (element : Element) : Prop :=
  el_type element = JStr "checkbox" \/ el_type element = JStr "radio".

(** The write-channel column of the table in spec 4.4, in the spec's
    words: checkbox / radio: checked boolean; text input / textarea:
    the element's text field; select: selected index; anything else:
    inner markup.  The rows are shapes that exclude one another: a
    checkbox or radio button is told by its [type], the other rows by
    the tag. *)
Definition spec_table_channel (element : Element) : string :=
  if strict_eq_str (el_type element) "checkbox"
     || strict_eq_str (el_type element) "radio" then "checked"
  else if String.eqb (tagName element) "INPUT"
          || String.eqb (tagName element) "TEXTAREA" then "value"
  else if String.eqb (tagName element) "SELECT" then "selectedIndex"
  else "innerHTML".

(** ** Relations between stores *)

(** [c] takes every store to one related to it by [R], whether it
    returns or throws. *)
Definition preserves (R : State -> State -> Prop) {A} (c : M A) : Prop :=
  forall st, R st (final_state (c st)).

(** The part of an element that binding depends on. *)
Definition shape (element : Element) : string * JsValue * list Listener :=
  (tagName element, el_type element, listeners element).

(** [st'] has the same [DOM] properties and the same listeners as
    [st]: only values, attributes and channel contents may differ. *)
Definition same_bindings (st st' : State) : Prop :=
  querySelectorAll st' = querySelectorAll st /\
  (forall n, DOM <$> nodes st' !! n = DOM <$> nodes st !! n) /\
  (forall e, shape <$> doc_elements st' !! e = shape <$> doc_elements st !! e).

(** [st'] has the same root object as [st]. *)
Definition same_root (st st' : State) : Prop := root st' = root st.

(** [st'] has the same nodes as [st], the node [n] possibly excepted. *)
Definition other_nodes_kept (n : NodeRef) (st st' : State) : Prop :=
  forall k, k <> n -> nodes st' !! k = nodes st !! k.

(** ** Invariants *)

(** No bound-element list holds an element twice. *)
Definition no_duplicates (st : State) : Prop :=
  forall n node l,
    nodes st !! n = Some node -> DOM node = JElems l -> NoDup l.

(** Every bound element carries the listener [bindDOM] attached for it. *)
Definition listening (st : State) : Prop :=
  forall n node l e element,
    nodes st !! n = Some node -> DOM node = JElems l -> e ∈ l ->
    doc_elements st !! e = Some element ->
    mkListener (inferEventType element) n ∈ listeners element.

(** The [DOM] property of every node holds an array. *)
Definition all_arrays (st : State) : Prop :=
  forall n node, nodes st !! n = Some node -> exists l, DOM node = JElems l.

Definition invariant (st : State) : Prop :=
  all_arrays st /\ no_duplicates st /\ listening st.

(** Every listener on an element is for the event inferred for it. *)
Definition only_inferred (st : State) : Prop :=
  forall e element l,
    doc_elements st !! e = Some element -> l ∈ listeners element ->
    l_event l = inferEventType element.

#[global] Instance Listener_eq_dec : EqDecision Listener.
Proof. solve_decision. Defined.

(** ** Stores reachable by running the program *)

(** What a caller, the host or the user can do. *)
Inductive Action : Type :=
| ReadRoot (prop : string)                          (* fx.prop *)
| WriteRoot (prop : string) (r : RootVal)           (* fx.prop = r *)
| SelectDot (n : NodeRef) (p : string)              (* node.$.p *)
| SelectCall (n : NodeRef) (args : list string)     (* node.$(s) *)
| Assign (n : NodeRef) (prop : string) (v : JsValue) (* node.prop = v *)
| Fire (e : ElemRef) (eventType : string)           (* the host fires an event *)
| Edit (e : ElemRef) (name : string) (v : JsValue). (* the user edits an element *)

Definition perform (a : Action) (st : State) : State :=
  match a with
  | ReadRoot prop => final_state (fx_get prop st)
  | WriteRoot prop r => final_state (fx_assign prop r st)
  | SelectDot n p => final_state (dollar_dot n p st)
  | SelectCall n args => final_state (dollar_call n args st)
  | Assign n prop v => final_state (node_set n prop v st)
  | Fire e eventType => final_state (dispatchEvent e eventType st)
  | Edit e name v => final_state (host_write e name v st)
  end.

(** The caller replaces the [DOM] property of a node. *)
Definition replaces_DOM (a : Action) : bool :=
  match a with
  | Assign _ prop _ => String.eqb prop "DOM"
  | _ => false
  end.

(** The caller assigns to [__proto__], which the model does not
    describe. *)
Definition sets_prototype (a : Action) : bool :=
  match a with
  | Assign _ prop _ | WriteRoot prop _ => String.eqb prop "__proto__"
  | _ => false
  end.

(** The caller overwrites what the root holds under [p]. *)
Definition overwrites_root (p : string) (a : Action) : bool :=
  match a with
  | WriteRoot prop _ => String.eqb prop p
  | _ => false
  end.

Definition ordinary (a : Action) : bool :=
  negb (replaces_DOM a) && negb (sets_prototype a).

(** The stores the program builds from any document, starting with no
    node and an empty root object, as long as the caller leaves the
    [DOM] property of the nodes to [bindDOM] (and assigns no
    prototype). *)
Inductive reachable : State -> Prop :=
| reachable_initial (st : State) :
    nodes st = ∅ -> root st = ∅ -> reachable st
| reachable_step (st : State) (a : Action) :
    ordinary a = true -> reachable st -> reachable (perform a st).

(** ** Sample stores *)

(** A node as [createReactiveNode] makes it. *)
Definition empty_node : Node := mkNode JNull (JObj []) (JElems []) ∅.

(** [fx.name] on the document with two text inputs. *)
Definition unbound_node : State := run (fx_get "name") two_inputs.

(** Then [fx.name.$.input]. *)
Definition bound_inputs : State := run (dollar_dot 0 "input") unbound_node.

(** The record behind [fx.name] in [bound_inputs]. *)
Definition bound_node : Node := mkNode JNull (JObj []) (JElems [0; 1]) ∅.

(** The mapping [{ id: "x", class: "y" }]. *)
Definition id_class : list (string * JsValue) :=
  [("id", JStr "x"); ("class", JStr "y")].

(** Then the user types into the first of the two bound inputs. *)
Definition typed_input : State :=
  run (host_write 0 "value" (JStr "typed")) bound_inputs.

(** The two inputs as they are in [typed_input]. *)
Definition typed_first : Element :=
  mkElement "INPUT" (JStr "text") (JStr "typed") (JBool false) (JNum (-1))
    (JStr "") ∅ [mkListener "input" 0].

Definition untouched_second : Element :=
  mkElement "INPUT" (JStr "text") (JStr "") (JBool false) (JNum (-1))
    (JStr "") ∅ [mkListener "input" 0].

(** A document with one checked checkbox, [<input type="checkbox" checked>],
    matched by the selector [#agree]. *)
Definition checked_checkbox : Element :=
  mkElement "INPUT" (JStr "checkbox") (JStr "on") (JBool true) (JNum (-1))
    (JStr "") ∅ [].

Definition checkbox_doc : State :=
  mkState (<[0 := checked_checkbox]> ∅)
          (fun sel => if String.eqb sel "#agree" then inr [0] else inr [])
          (fun _ => "[object HTMLInputElement]")
          ∅ ∅.

(** [fx.agree], then [fx.agree.$["#agree"]]. *)
Definition bound_checkbox : State :=
  run (dollar_dot 0 "#agree") (run (fx_get "agree") checkbox_doc).

(** Two text inputs again; the selector [input] matches both and
    [#second] only the second. *)
Definition two_selectors : State :=
  mkState (<[0 := blank "INPUT" (JStr "text")]>
             (<[1 := blank "INPUT" (JStr "text")]> ∅))
          (fun sel => if String.eqb sel "input" then inr [0; 1]
                      else if String.eqb sel "#second" then inr [1]
                      else inr [])
          (fun _ => "[object HTMLInputElement]")
          ∅ ∅.

(** [fx.name], then [fx.name.$["#second"]]: only the second input is
    bound. *)
Definition first_bound : State :=
  run (dollar_dot 0 "#second") (run (fx_get "name") two_selectors).

(** The record behind [fx.name] in [first_bound]. *)
Definition first_node : Node := mkNode JNull (JObj []) (JElems [1]) ∅.

(** [fx.name.DOM = [first, first]] on [bound_inputs]: the caller puts
    the first input into the list twice. *)
Definition doubled_list : State :=
  perform (Assign 0 "DOM" (JElems [0; 0])) bound_inputs.

(** [fx.name = null] on [unbound_node]: the caller overwrites the node
    the root holds. *)
Definition overwritten_root : State :=
  perform (WriteRoot "name" (RData JNull)) unbound_node.

(** ** Statements the code does not satisfy *)


(** Reading a name the root does not own creates, stores and returns a
    new empty node, which a second read returns again. *)
Definition lazily_creates (st : State) (p : string) : Prop :=
  root st !! p = None ->
  exists n st',
    fx_get p st = Returned (RNode n) st' /\
    nodes st !! n = None /\
    nodes st' !! n = Some empty_node /\
    root st' !! p = Some (RNode n) /\
    fx_get p st' = Returned (RNode n) st'.

(** Once a read of [p] has returned the node [n], every later read of
    [p] returns it, whatever is done in between. *)
Definition stays_memoized (st : State) (p : string) (n : NodeRef) : Prop :=
  forall later : list Action,
    let st' := foldl (fun s a => perform a s) st later in
    fx_get p st' = Returned (RNode n) st'.

(** After a value was assigned to a node, every bound element holds it
    in the channel the table of spec 4.4 gives for the element. *)
Definition pushed_per_table (st : State) (n : NodeRef) (v : JsValue) : Prop :=
  forall node l e element,
    nodes st !! n = Some node ->
    DOM node = JElems l ->
    e ∈ l ->
    doc_elements (final_state (node_set n "value" v st)) !! e = Some element ->
    element_prop element (spec_table_channel element) = v.

(** * Properties *)

(** ** Loops over the store *)

Lemma forEach_modify {A} (f : A -> State -> State) (l : list A) (st : State) :
  forEach l (fun x => modify (f x)) st
  = Returned tt (foldl (fun s x => f x s) st l).
Proof.
  revert st. induction l as [|x l IH]; intros st; simpl; [reflexivity|].
  unfold bind at 1, modify at 1. apply IH.
Qed.

Lemma foldl_with_elements {A} (g : A -> gmap ElemRef Element -> gmap ElemRef Element)
    (l : list A) (st : State) :
  foldl (fun s x => with_elements (g x) s) st l
  = with_elements (fun m => foldl (fun m x => g x m) m l) st.
Proof.
  revert st. induction l as [|x l IH]; intros st; simpl.
  - by destruct st.
  - rewrite IH. by destruct st.
Qed.

(** Altering the entries named by a list with an idempotent function:
    listed keys are altered, the others are untouched. *)
Lemma foldl_alter_lookup {V} (f : V -> V) (l : list nat) (m : gmap nat V) (k : nat) :
  (forall x, f (f x) = f x) ->
  foldl (fun m e => alter f e m) m l !! k
  = if bool_decide (k ∈ l) then f <$> m !! k else m !! k.
Proof.
  intros Hidem. revert m. induction l as [|e l IH]; intros m; simpl.
  - reflexivity.
  - rewrite IH. destruct (decide (e = k)) as [->|Hne].
    + rewrite lookup_alter_eq.
      rewrite (bool_decide_eq_true_2 (k ∈ k :: l)) by apply list_elem_of_here.
      case_bool_decide; [|reflexivity].
      destruct (m !! k); simpl; [by rewrite Hidem | reflexivity].
    + rewrite lookup_alter_ne by done.
      rewrite (bool_decide_ext (k ∈ e :: l) (k ∈ l)); [reflexivity|].
      rewrite elem_of_cons. split; [intros [?|?]; congruence | by right].
Qed.

(** ** The channel table as the code has it *)

Lemma strict_eq_str_true (v : JsValue) (s : string) :
  strict_eq_str v s = true <-> v = JStr s.
Proof.
  destruct v; simpl; try (split; [discriminate|congruence]).
  rewrite String.eqb_eq. split; [by intros ->|by intros [= ->]].
Qed.

Lemma boxed_spec (element : Element) :
  strict_eq_str (el_type element) "checkbox"
  || strict_eq_str (el_type element) "radio" = true
  <-> boxed element.
Proof. unfold boxed. by rewrite orb_true_iff, !strict_eq_str_true. Qed.

Lemma not_boxed_spec (element : Element) :
  ~ boxed element ->
  strict_eq_str (el_type element) "checkbox"
  || strict_eq_str (el_type element) "radio" = false.
Proof.
  intros Hno. apply not_true_is_false. by rewrite boxed_spec.
Qed.

(** Outside checkboxes and radio buttons the code's classification is
    the table of the spec. *)
Lemma inferBindingType_table (element : Element) :
  ~ boxed element -> inferBindingType element = spec_table_channel element.
Proof.
  intros Hno. unfold inferBindingType, spec_table_channel.
  by rewrite (not_boxed_spec element Hno).
Qed.

Lemma spec_table_channel_write_prop (element : Element) (name : string) (v : JsValue) :
  spec_table_channel (write_prop element name v) = spec_table_channel element.
Proof.
  unfold write_prop.
  repeat (match goal with |- context [if String.eqb name ?s then _ else _] =>
            destruct (String.eqb name s) end); reflexivity.
Qed.

Lemma inferBindingType_cases (element : Element) :
  inferBindingType element ∈ ["value"; "selectedIndex"; "checked"; "innerHTML"].
Proof.
  unfold inferBindingType.
  repeat (match goal with |- context [if ?b then _ else _] => destruct b end);
    set_solver.
Qed.

Lemma inferBindingType_write_prop (element : Element) (name : string) (v : JsValue) :
  inferBindingType (write_prop element name v) = inferBindingType element.
Proof.
  unfold write_prop.
  repeat (match goal with |- context [if String.eqb name ?s then _ else _] =>
            destruct (String.eqb name s) end); reflexivity.
Qed.

Lemma inferEventType_write_prop (element : Element) (name : string) (v : JsValue) :
  inferEventType (write_prop element name v) = inferEventType element.
Proof.
  unfold write_prop.
  repeat (match goal with |- context [if String.eqb name ?s then _ else _] =>
            destruct (String.eqb name s) end); reflexivity.
Qed.

Lemma element_prop_write_prop (element : Element) (name : string) (v : JsValue) :
  name ∈ ["value"; "selectedIndex"; "checked"; "innerHTML"] ->
  element_prop (write_prop element name v) name = v.
Proof.
  intros H. repeat (apply elem_of_cons in H as [->|H]); [..|by apply elem_of_nil in H];
    reflexivity.
Qed.

Lemma getElementValue_element_prop (element : Element) :
  getElementValue element = element_prop element (inferBindingType element).
Proof.
  unfold getElementValue. cbv zeta.
  pose proof (inferBindingType_cases element) as H.
  repeat (apply elem_of_cons in H as [->|H]); [..|by apply elem_of_nil in H];
    reflexivity.
Qed.

Lemma getElementValue_push_value (v : JsValue) (element : Element) :
  getElementValue (push_value v element) = v.
Proof.
  unfold push_value, updateDOM.
  rewrite getElementValue_element_prop, inferBindingType_write_prop.
  apply element_prop_write_prop, inferBindingType_cases.
Qed.

Lemma push_value_idem (v : JsValue) (element : Element) :
  push_value v (push_value v element) = push_value v element.
Proof.
  unfold push_value, updateDOM. rewrite inferBindingType_write_prop.
  pose proof (inferBindingType_cases element) as H.
  repeat (apply elem_of_cons in H as [->|H]); [..|by apply elem_of_nil in H];
    reflexivity.
Qed.

Lemma updateDOMValues_spec (n : NodeRef) (node : Node) (l : list ElemRef)
    (st : State) :
  nodes st !! n = Some node ->
  DOM node = JElems l ->
  updateDOMValues n st
  = Returned tt (with_elements
      (fun m => foldl (fun m e => alter (push_value (value node)) e m) m l) st).
Proof.
  intros Hn Hdom. unfold updateDOMValues, DOM_forEach. rewrite Hn, Hdom.
  unfold element_update.
  rewrite (forEach_modify
    (fun e => with_elements (alter (push_value (value node)) e))).
  by rewrite foldl_with_elements.
Qed.

Lemma node_set_value_spec (n : NodeRef) (node : Node) (l : list ElemRef)
    (v : JsValue) (st : State) :
  nodes st !! n = Some node ->
  DOM node = JElems l ->
  node_set n "value" v st
  = Returned true
      (with_elements
         (fun m => foldl (fun m e => alter (push_value v) e m) m l)
         (with_nodes (alter (set_value v) n) st)).
Proof.
  intros Hn Hdom. unfold node_set. simpl.
  unfold bind, target_update, modify.
  rewrite (updateDOMValues_spec n (set_value v node) l); [reflexivity| |done].
  simpl. by rewrite lookup_alter_eq, Hn.
Qed.

Lemma forEach_total {A} (body : A -> M unit) (f : A -> State -> State)
    (l : list A) (st : State) :
  (forall x s, body x s = Returned tt (f x s)) ->
  forEach l body st = Returned tt (foldl (fun s x => f x s) st l).
Proof.
  intros Hbody. revert st. induction l as [|x l IH]; intros st; simpl; [reflexivity|].
  unfold bind at 1. rewrite Hbody. apply IH.
Qed.

(** ** Attribute mode *)

Lemma lookup_foldl_insert (entries : list (string * JsValue))
    (m : gmap string JsValue) (k : string) :
  foldl (fun m kv => <[kv.1 := kv.2]> m) m entries !! k
  = match last_value k entries with Some w => Some w | None => m !! k end.
Proof.
  revert m. induction entries as [|[k' v] rest IH]; intros m; simpl; [reflexivity|].
  rewrite IH. destruct (last_value k rest); [reflexivity|].
  case_decide as Hk.
  - subst. apply lookup_insert_eq.
  - by apply lookup_insert_ne.
Qed.

Lemma last_value_None (k : string) (entries : list (string * JsValue)) :
  k ∉ entries.*1 -> last_value k entries = None.
Proof.
  induction entries as [|[k' v] rest IH]; simpl; [reflexivity|].
  rewrite not_elem_of_cons. intros [Hne Hrest].
  rewrite IH by done. by rewrite decide_False.
Qed.

Lemma last_value_Some (k : string) (v : JsValue) (entries : list (string * JsValue)) :
  NoDup entries.*1 -> (k, v) ∈ entries -> last_value k entries = Some v.
Proof.
  induction entries as [|[k' v'] rest IH]; simpl.
  - intros _ H. by apply elem_of_nil in H.
  - rewrite NoDup_cons, elem_of_cons. intros [Hfresh Hnd] [Heq|Hin].
    + injection Heq as <- <-.
      rewrite last_value_None by done. by rewrite decide_True.
    + by rewrite IH.
Qed.

Lemma apply_entries_fields (entries : list (string * JsValue)) (element : Element) :
  apply_entries entries element
  = mkElement (tagName element) (el_type element) (el_value element)
      (checked element) (selectedIndex element) (innerHTML element)
      (foldl (fun m kv => <[kv.1 := kv.2]> m) (attributes element) entries)
      (listeners element).
Proof.
  unfold apply_entries. revert element.
  induction entries as [|kv rest IH]; intros element; simpl.
  - by destruct element.
  - by rewrite IH.
Qed.

Lemma apply_entries_idem (entries : list (string * JsValue)) (element : Element) :
  apply_entries entries (apply_entries entries element) = apply_entries entries element.
Proof.
  rewrite !apply_entries_fields. simpl. f_equal.
  apply map_eq. intros k. rewrite !lookup_foldl_insert.
  by destruct (last_value k entries).
Qed.

Lemma foldl_alter_entries (entries : list (string * JsValue)) (e : ElemRef)
    (m : gmap ElemRef Element) :
  foldl (fun m kv => alter (fun el => setAttribute el kv.1 kv.2) e m) m entries
  = alter (apply_entries entries) e m.
Proof.
  unfold apply_entries. revert m.
  induction entries as [|kv rest IH]; intros m; simpl.
  - symmetry. apply map_eq. intros k. destruct (decide (e = k)) as [->|].
    + rewrite lookup_alter_eq. by destruct (m !! k).
    + by rewrite lookup_alter_ne.
  - rewrite IH. apply map_eq. intros k. destruct (decide (e = k)) as [->|].
    + rewrite !lookup_alter_eq. by destruct (m !! k).
    + by rewrite !lookup_alter_ne.
Qed.

Lemma updateDOMAttributes_spec (n : NodeRef) (node : Node) (l : list ElemRef)
    (entries : list (string * JsValue)) (st : State) :
  nodes st !! n = Some node ->
  DOM node = JElems l ->
  Object_entries (attr node) = inr entries ->
  updateDOMAttributes n st
  = Returned tt (with_elements
      (fun m => foldl (fun m e => alter (apply_entries entries) e m) m l) st).
Proof.
  intros Hn Hdom Hentries. unfold updateDOMAttributes, DOM_forEach.
  rewrite Hn, Hdom, Hentries.
  rewrite (forEach_total _ (fun e => with_elements (alter (apply_entries entries) e))).
  - by rewrite foldl_with_elements.
  - intros e s. unfold element_update.
    rewrite (forEach_modify
      (fun kv => with_elements (alter (fun el => setAttribute el kv.1 kv.2) e))).
    rewrite foldl_with_elements. unfold with_elements. simpl.
    by rewrite foldl_alter_entries.
Qed.

Lemma updateDOMAttributes_unbound (n : NodeRef) (node : Node) (st : State) :
  nodes st !! n = Some node -> DOM node = JElems [] ->
  updateDOMAttributes n st = Returned tt st.
Proof.
  intros Hn Hdom. unfold updateDOMAttributes, DOM_forEach. by rewrite Hn, Hdom.
Qed.

Lemma node_set_attr_spec (n : NodeRef) (node : Node) (l : list ElemRef)
    (v : JsValue) (entries : list (string * JsValue)) (st : State) :
  nodes st !! n = Some node ->
  DOM node = JElems l ->
  Object_entries v = inr entries ->
  node_set n "attr" v st
  = Returned true
      (with_elements
         (fun m => foldl (fun m e => alter (apply_entries entries) e m) m l)
         (with_nodes (alter (set_attr v) n) st)).
Proof.
  intros Hn Hdom Hentries. unfold node_set. simpl.
  unfold bind, target_update, modify.
  rewrite (updateDOMAttributes_spec n (set_attr v node) l entries);
    [reflexivity| |done|done].
  simpl. by rewrite lookup_alter_eq, Hn.
Qed.

(** ** Binding *)

Lemma push_DOM_array (e : ElemRef) (node : Node) (l : list ElemRef) :
  DOM node = JElems l ->
  push_DOM e node = mkNode (value node) (attr node) (JElems (l ++ [e])) (extra node).
Proof. intros Hdom. unfold push_DOM. by rewrite Hdom. Qed.

(** One iteration leaves the store [bind_step] gives, however it ends. *)
Lemma bind_element_final (n : NodeRef) (e : ElemRef) (st : State) :
  final_state (bind_element n e st) = bind_step n e st.
Proof.
  unfold bind_element, bind_step.
  destruct (nodes st !! n) as [node|]; [|reflexivity].
  destruct (DOM node); try reflexivity.
  - by destruct (string_includes s (element_text st e)).
  - case_bool_decide; reflexivity.
Qed.

(** While [DOM] is an array an iteration returns. *)
Lemma bind_element_step (n : NodeRef) (node : Node) (l : list ElemRef)
    (e : ElemRef) (st : State) :
  nodes st !! n = Some node -> DOM node = JElems l ->
  bind_element n e st = Returned tt (bind_step n e st).
Proof.
  intros Hn Hdom. unfold bind_element, bind_step. rewrite Hn, Hdom.
  case_bool_decide; reflexivity.
Qed.

(** An iteration leaves [DOM] an array, grown by at most the element. *)
Lemma bind_step_array (n : NodeRef) (node : Node) (l : list ElemRef)
    (e : ElemRef) (st : State) :
  nodes st !! n = Some node -> DOM node = JElems l ->
  nodes (bind_step n e st) !! n
  = Some (mkNode (value node) (attr node)
                 (JElems (if bool_decide (e ∈ l) then l else l ++ [e]))
                 (extra node)).
Proof.
  intros Hn Hdom. unfold bind_step. rewrite Hn, Hdom.
  case_bool_decide.
  - rewrite Hn, <- Hdom. by destruct node.
  - simpl. rewrite lookup_alter_eq, Hn. simpl. by rewrite (push_DOM_array e node l).
Qed.

Lemma bind_steps_returns (n : NodeRef) (node : Node) (l : list ElemRef)
    (elems : list ElemRef) (st : State) :
  nodes st !! n = Some node -> DOM node = JElems l ->
  forEach elems (bind_element n) st
  = Returned tt (foldl (fun s e => bind_step n e s) st elems).
Proof.
  revert node l st. induction elems as [|e elems IH]; intros node l st Hn Hdom; simpl.
  - reflexivity.
  - unfold bind at 1. rewrite (bind_element_step n node l e st Hn Hdom).
    eapply IH; [by apply (bind_step_array n node l)|reflexivity].
Qed.

(** When [DOM] is no array, iterations change nothing. *)
Lemma bind_step_no_array (n : NodeRef) (node : Node) (e : ElemRef) (st : State) :
  nodes st !! n = Some node -> (forall l, DOM node <> JElems l) ->
  bind_step n e st = st.
Proof.
  intros Hn Hdom. unfold bind_step. rewrite Hn.
  destruct (DOM node) eqn:Heq; try reflexivity. by destruct (Hdom l).
Qed.

Lemma bind_steps_no_array (n : NodeRef) (node : Node) (elems : list ElemRef)
    (st : State) :
  nodes st !! n = Some node -> (forall l, DOM node <> JElems l) ->
  foldl (fun s e => bind_step n e s) st elems = st.
Proof.
  intros Hn Hdom. induction elems as [|e elems IH]; simpl; [reflexivity|].
  by rewrite (bind_step_no_array n node e st Hn Hdom).
Qed.

Lemma bind_steps_unknown (n : NodeRef) (elems : list ElemRef) (st : State) :
  nodes st !! n = None ->
  foldl (fun s e => bind_step n e s) st elems = st.
Proof.
  intros Hn. induction elems as [|e elems IH]; simpl; [reflexivity|].
  unfold bind_step at 2. by rewrite Hn.
Qed.

Lemma bind_element_no_array (n : NodeRef) (node : Node) (e : ElemRef) (st : State) :
  nodes st !! n = Some node -> (forall l, DOM node <> JElems l) ->
  bind_element n e st = Returned tt st \/ bind_element n e st = Thrown TypeError st.
Proof.
  intros Hn Hdom. unfold bind_element. rewrite Hn.
  destruct (DOM node) as [| |b|z|s|es|x|l] eqn:Heq; try (by right).
  - destruct (string_includes s (element_text st e)); [by left|by right].
  - by destruct (Hdom l).
Qed.

Lemma bind_loop_no_array (n : NodeRef) (node : Node) (elems : list ElemRef)
    (st : State) :
  nodes st !! n = Some node -> (forall l, DOM node <> JElems l) ->
  forEach elems (bind_element n) st = Returned tt st
  \/ forEach elems (bind_element n) st = Thrown TypeError st.
Proof.
  intros Hn Hdom. induction elems as [|e elems IH]; [by left|].
  cbn [forEach]. unfold bind.
  destruct (bind_element_no_array n node e st Hn Hdom) as [->| ->]; [exact IH|by right].
Qed.

(** The loop of [bindDOM]: it returns, or it throws a TypeError with
    the store as it found it. *)
Lemma bind_loop_outcome (n : NodeRef) (elems : list ElemRef) (st : State) :
  forEach elems (bind_element n) st
  = Returned tt (foldl (fun s e => bind_step n e s) st elems)
  \/ (forEach elems (bind_element n) st = Thrown TypeError st /\
      exists node, nodes st !! n = Some node /\ forall l, DOM node <> JElems l).
Proof.
  destruct (nodes st !! n) as [node|] eqn:Hn.
  - destruct (DOM node) as [| |b|z|s|es|x|l] eqn:Hdom.
    8: { left. by apply (bind_steps_returns n node l). }
    all: assert (Hno : forall l, DOM node <> JElems l) by (intros l; congruence).
    all: rewrite (bind_steps_no_array n node elems st Hn Hno).
    all: destruct (bind_loop_no_array n node elems st Hn Hno) as [->| ->];
      [by left|right; split; [reflexivity|by exists node]].
  - left. rewrite (bind_steps_unknown n elems st Hn).
    induction elems as [|e elems IH]; simpl; [reflexivity|].
    unfold bind at 1, bind_element at 1. by rewrite Hn.
Qed.

Lemma bindDOM_final (selector : string) (n : NodeRef) (st : State) :
  final_state (bindDOM selector n st)
  = match querySelectorAll st selector with
    | inl _ => st
    | inr elems => foldl (fun s e => bind_step n e s) st elems
    end.
Proof.
  unfold bindDOM. destruct (querySelectorAll st selector) as [err|elems]; [reflexivity|].
  unfold bind at 1.
  destruct (bind_loop_outcome n elems st) as [->|[-> (node & Hn & Hdom)]]; simpl.
  - reflexivity.
  - by rewrite (bind_steps_no_array n node elems st Hn Hdom).
Qed.

Lemma bindDOM_spec (selector : string) (n : NodeRef) (node : Node)
    (l : list ElemRef) (st : State) :
  nodes st !! n = Some node -> DOM node = JElems l ->
  bindDOM selector n st
  = match querySelectorAll st selector with
    | inl err => Thrown err st
    | inr elems => Returned n (foldl (fun s e => bind_step n e s) st elems)
    end.
Proof.
  intros Hn Hdom. unfold bindDOM.
  destruct (querySelectorAll st selector) as [err|elems]; [reflexivity|].
  unfold bind at 1. by rewrite (bind_steps_returns n node l elems st Hn Hdom).
Qed.

Lemma bind_step_query (n : NodeRef) (e : ElemRef) (st : State) :
  querySelectorAll (bind_step n e st) = querySelectorAll st.
Proof.
  unfold bind_step. destruct (nodes st !! n) as [node|]; [|reflexivity].
  destruct (DOM node); try reflexivity.
  case_bool_decide; reflexivity.
Qed.

Lemma bind_steps_query (n : NodeRef) (elems : list ElemRef) (st : State) :
  querySelectorAll (foldl (fun s e => bind_step n e s) st elems) = querySelectorAll st.
Proof.
  revert st. induction elems as [|e elems IH]; intros st; simpl; [reflexivity|].
  by rewrite IH, bind_step_query.
Qed.

(** What the loop does to the list of the node being bound: it grows by
    elements that were not in it, and ends up holding every match. *)
Lemma bind_steps_DOM (n : NodeRef) (node : Node) (l : list ElemRef)
    (elems : list ElemRef) (st : State) :
  nodes st !! n = Some node -> DOM node = JElems l -> NoDup l ->
  exists added,
    nodes (foldl (fun s e => bind_step n e s) st elems) !! n
      = Some (mkNode (value node) (attr node) (JElems (l ++ added)) (extra node)) /\
    NoDup (l ++ added) /\
    (forall e, e ∈ added -> e ∈ elems /\ e ∉ l) /\
    (forall e, e ∈ elems -> e ∈ l ++ added).
Proof.
  revert node l st.
  induction elems as [|e elems IH]; intros node l st Hn Hdom Hnd; simpl.
  - exists []. rewrite app_nil_r. split_and!; [|done|..].
    + rewrite Hn, <- Hdom. by destruct node.
    + intros e H. by apply elem_of_nil in H.
    + intros e H. by apply elem_of_nil in H.
  - pose proof (bind_step_array n node l e st Hn Hdom) as Hstep.
    case_bool_decide as Hin.
    + destruct (IH _ l _ Hstep eq_refl Hnd) as (added & Hlook & Hnd' & Hnew & Hall).
      exists added. split_and!; [done|done|..].
      * intros x Hx. destruct (Hnew x Hx). split; [by right|done].
      * intros x [->|Hx]%elem_of_cons; [|by apply Hall].
        apply elem_of_app. by left.
    + destruct (IH _ (l ++ [e]) _ Hstep eq_refl)
        as (added & Hlook & Hnd' & Hnew & Hall).
      { apply NoDup_app. split_and!; [done| |apply NoDup_singleton].
        intros x Hx ->%list_elem_of_singleton. done. }
      simpl in *. exists (e :: added).
      rewrite <- app_assoc in Hlook, Hnd', Hall. simpl in *.
      split_and!; [done|done|..].
      * intros x [->|Hx]%elem_of_cons; [split; [by left|done]|].
        destruct (Hnew x Hx) as [? Hnot]. split; [by right|].
        intros ?. apply Hnot, elem_of_app. by left.
      * intros x [->|Hx]%elem_of_cons; [|by apply Hall].
        apply elem_of_app. right. by left.
Qed.

(** Binding elements that are all bound already changes nothing. *)
Lemma bind_steps_bound (n : NodeRef) (node : Node) (l : list ElemRef)
    (elems : list ElemRef) (st : State) :
  nodes st !! n = Some node -> DOM node = JElems l ->
  (forall e, e ∈ elems -> e ∈ l) ->
  foldl (fun s e => bind_step n e s) st elems = st.
Proof.
  intros Hn Hdom. induction elems as [|e elems IH]; intros Hall; simpl; [reflexivity|].
  unfold bind_step at 2. rewrite Hn, Hdom.
  rewrite bool_decide_eq_true_2 by (apply Hall; by left).
  apply IH. intros x Hx. apply Hall. by right.
Qed.

(** ** Computations that preserve a relation on stores *)

Section Preservation.
Variable R : State -> State -> Prop.
Hypothesis R_refl : forall st, R st st.
Hypothesis R_trans : forall st1 st2 st3, R st1 st2 -> R st2 st3 -> R st1 st3.

Lemma preserves_ret {A} (a : A) : preserves R (ret a).
Proof. intros st. apply R_refl. Qed.

Lemma preserves_throw {A} (err : JsError) : preserves R (@throw A err).
Proof. intros st. apply R_refl. Qed.

Lemma preserves_modify (f : State -> State) :
  (forall st, R st (f st)) -> preserves R (modify f).
Proof. intros Hf st. apply Hf. Qed.

Lemma preserves_bind {A B} (c : M A) (k : A -> M B) :
  preserves R c -> (forall a, preserves R (k a)) -> preserves R (bind c k).
Proof.
  intros Hc Hk st. unfold bind. specialize (Hc st).
  destruct (c st) as [a st'|err st']; simpl in *; [|done].
  eapply R_trans; [exact Hc|apply Hk].
Qed.

Lemma preserves_forEach {A} (l : list A) (body : A -> M unit) :
  (forall x, preserves R (body x)) -> preserves R (forEach l body).
Proof.
  intros Hbody. induction l as [|x l IH]; simpl.
  - apply preserves_ret.
  - apply preserves_bind; [apply Hbody|intros _; apply IH].
Qed.

Lemma preserves_DOM_forEach (node : Node) (body : ElemRef -> M unit) :
  (forall x, preserves R (body x)) -> preserves R (DOM_forEach node body).
Proof.
  intros Hbody. unfold DOM_forEach.
  destruct (DOM node); try apply preserves_throw. by apply preserves_forEach.
Qed.
End Preservation.

(** ** Writes that leave the bindings alone *)

Lemma same_bindings_refl (st : State) : same_bindings st st.
Proof. by split_and!. Qed.

Lemma same_bindings_trans (st1 st2 st3 : State) :
  same_bindings st1 st2 -> same_bindings st2 st3 -> same_bindings st1 st3.
Proof.
  intros (Hq & Hn & He) (Hq' & Hn' & He'). split_and!.
  - congruence.
  - intros n. by rewrite Hn', Hn.
  - intros e. by rewrite He', He.
Qed.

Lemma target_update_same (n : NodeRef) (f : Node -> Node) :
  (forall node, DOM (f node) = DOM node) ->
  preserves same_bindings (target_update n f).
Proof.
  intros Hf. apply preserves_modify. intros st. split_and!; [done| |done].
  intros k. simpl. destruct (decide (n = k)) as [->|].
  - rewrite lookup_alter_eq. destruct (nodes st !! k); simpl; [by rewrite Hf|done].
  - by rewrite lookup_alter_ne.
Qed.

Lemma element_update_same (e : ElemRef) (f : Element -> Element) :
  (forall element, shape (f element) = shape element) ->
  preserves same_bindings (element_update e f).
Proof.
  intros Hf. apply preserves_modify. intros st. split_and!; [done|done|].
  intros k. simpl. destruct (decide (e = k)) as [->|].
  - rewrite lookup_alter_eq. destruct (doc_elements st !! k); simpl; [by rewrite Hf|done].
  - by rewrite lookup_alter_ne.
Qed.

Lemma shape_write_prop (element : Element) (name : string) (v : JsValue) :
  shape (write_prop element name v) = shape element.
Proof.
  unfold write_prop.
  repeat (match goal with |- context [if String.eqb name ?s then _ else _] =>
            destruct (String.eqb name s) end); reflexivity.
Qed.

Local Ltac step_preserves Hrefl Htrans :=
  repeat first
    [ apply (preserves_bind _ Htrans); [|intros ?]
    | apply (preserves_forEach _ Hrefl Htrans); intros ?
    | apply (preserves_DOM_forEach _ Hrefl Htrans); intros ?
    | apply (preserves_ret _ Hrefl)
    | apply (preserves_throw _ Hrefl) ].

Local Ltac step_same := step_preserves same_bindings_refl same_bindings_trans.

Lemma updateDOMValues_same (n : NodeRef) :
  preserves same_bindings (updateDOMValues n).
Proof.
  intros st. unfold updateDOMValues.
  destruct (nodes st !! n) as [node|]; [|apply same_bindings_refl].
  revert st. step_same.
  apply element_update_same. intros element. apply shape_write_prop.
Qed.

Lemma updateDOMAttributes_same (n : NodeRef) :
  preserves same_bindings (updateDOMAttributes n).
Proof.
  intros st. unfold updateDOMAttributes.
  destruct (nodes st !! n) as [node|]; [|apply same_bindings_refl].
  revert st. step_same.
  destruct (Object_entries (attr node)); step_same.
  by apply element_update_same.
Qed.

Lemma DOM_target_set (prop : string) (v : JsValue) (node : Node) :
  prop <> "DOM" -> DOM (target_set prop v node) = DOM node.
Proof.
  intros Hprop. unfold target_set.
  rewrite (proj2 (String.eqb_neq prop "DOM") Hprop).
  by destruct (String.eqb prop "value"), (String.eqb prop "attr").
Qed.

Lemma node_set_same (n : NodeRef) (prop : string) (v : JsValue) :
  prop <> "DOM" -> preserves same_bindings (node_set n prop v).
Proof.
  intros Hprop. unfold node_set.
  destruct (String.eqb prop "value"); [|destruct (String.eqb prop "attr")]; step_same;
    first [ by apply target_update_same
          | apply updateDOMValues_same
          | apply updateDOMAttributes_same
          | apply target_update_same; intros node; by apply DOM_target_set ].
Qed.

Lemma dispatchEvent_same (e : ElemRef) (eventType : string) :
  preserves same_bindings (dispatchEvent e eventType).
Proof.
  intros st. unfold dispatchEvent.
  destruct (doc_elements st !! e) as [element|]; [|apply same_bindings_refl].
  revert st. step_same. intros st. unfold run_listener.
  destruct (doc_elements st !! e); [|apply same_bindings_refl].
  by apply target_update_same.
Qed.

Lemma host_write_same (e : ElemRef) (name : string) (v : JsValue) :
  preserves same_bindings (host_write e name v).
Proof.
  apply element_update_same. intros element. apply shape_write_prop.
Qed.

(** ** Invariants of the stores the program builds *)

Lemma inferEventType_shape (a b : Element) :
  shape a = shape b -> inferEventType a = inferEventType b.
Proof.
  unfold shape, inferEventType. intros [= -> -> _]. reflexivity.
Qed.

Lemma invariant_same (st st' : State) :
  same_bindings st st' -> invariant st -> invariant st'.
Proof.
  intros (_ & Hn & He) (Harr & Hnd & Hl). split_and!.
  - intros n node' Hnode'. specialize (Hn n). rewrite Hnode' in Hn.
    destruct (nodes st !! n) as [node|] eqn:Hnode; [|done].
    destruct (Harr n node Hnode) as [l Hl']. exists l. simpl in Hn. congruence.
  - intros n node' l Hnode' Hdom'. specialize (Hn n). rewrite Hnode' in Hn.
    destruct (nodes st !! n) as [node|] eqn:Hnode; [|done].
    apply (Hnd n node l Hnode). simpl in Hn. congruence.
  - intros n node' l e element' Hnode' Hdom' Hin Helem'.
    specialize (Hn n). rewrite Hnode' in Hn.
    destruct (nodes st !! n) as [node|] eqn:Hnode; [|done].
    assert (Hdom : DOM node = JElems l) by (simpl in Hn; congruence).
    specialize (He e). rewrite Helem' in He.
    destruct (doc_elements st !! e) as [element|] eqn:Helem; [|done].
    assert (Hshape : shape element' = shape element) by (simpl in He; congruence).
    rewrite (inferEventType_shape _ _ Hshape).
    assert (Hls : listeners element' = listeners element)
      by (unfold shape in Hshape; congruence).
    rewrite Hls. by eapply Hl.
Qed.

Lemma invariant_bind_step (n : NodeRef) (e : ElemRef) (st : State) :
  invariant st -> invariant (bind_step n e st).
Proof.
  intros (Harr & Hnd & Hl). unfold bind_step.
  destruct (nodes st !! n) as [node|] eqn:Hnode; [|done].
  destruct (DOM node) as [| |b|z|s|es|x|l] eqn:Hdom; try done.
  case_bool_decide as Hin; [done|]. split_and!.
  - intros n0 node0. simpl. destruct (decide (n = n0)) as [<-|Hne].
    + rewrite lookup_alter_eq, Hnode. simpl.
      rewrite (push_DOM_array e node l Hdom). intros [= <-]. by eexists.
    + rewrite lookup_alter_ne by done. apply Harr.
  - intros n0 node0 l0. simpl. destruct (decide (n = n0)) as [<-|Hne].
    + rewrite lookup_alter_eq, Hnode. simpl.
      rewrite (push_DOM_array e node l Hdom). intros [= <-] [= <-].
      apply NoDup_app. split_and!; [by eapply Hnd| |apply NoDup_singleton].
      intros x Hx ->%list_elem_of_singleton. done.
    + rewrite lookup_alter_ne by done. apply Hnd.
  - intros n0 node0 l0 e0 element0. simpl.
    destruct (decide (e = e0)) as [<-|Hne_e].
    + rewrite lookup_alter_eq.
      destruct (doc_elements st !! e) as [element|] eqn:Helem; [|done].
      intros Hnode0 Hdom0 Hin0 [= <-]. simpl.
      change (inferEventType (listen n element)) with (inferEventType element).
      apply elem_of_app.
      destruct (decide (n = n0)) as [<-|Hne_n].
      * right. by left.
      * left. rewrite lookup_alter_ne in Hnode0 by done. by eapply Hl.
    + intros Hnode0 Hdom0 Hin0 Helem0. rewrite lookup_alter_ne in Helem0 by done.
      destruct (decide (n = n0)) as [<-|Hne_n].
      * rewrite lookup_alter_eq, Hnode in Hnode0. simpl in Hnode0.
        rewrite (push_DOM_array e node l Hdom) in Hnode0.
        injection Hnode0 as <-. simpl in Hdom0. injection Hdom0 as <-.
        apply elem_of_app in Hin0 as [Hin0|Hin0%list_elem_of_singleton]; [|congruence].
        by eapply Hl.
      * rewrite lookup_alter_ne in Hnode0 by done. by eapply Hl.
Qed.

Lemma invariant_bindDOM (selector : string) (n : NodeRef) (st : State) :
  invariant st -> invariant (final_state (bindDOM selector n st)).
Proof.
  intros Hinv. rewrite bindDOM_final.
  destruct (querySelectorAll st selector) as [err|elems]; [done|].
  revert st Hinv. induction elems as [|e elems IH]; intros st Hinv; simpl; [done|].
  by apply IH, invariant_bind_step.
Qed.

(** [fx_get] either finds a truthy property or stores a new node. *)
Lemma fx_get_spec (prop : string) (st : State) :
  fx_get prop st
  = if root_truthy (target_lookup (root st) prop)
    then Returned (target_lookup (root st) prop) st
    else
      let n := fresh (dom (nodes st)) in
      Returned (RNode n)
        (with_root (<[prop := RNode n]>)
           (with_nodes (<[n := empty_node]>) st)).
Proof.
  unfold fx_get. destruct (root_truthy (target_lookup (root st) prop)); simpl.
  - reflexivity.
  - unfold bind, createReactiveNode, modify, target_lookup. simpl.
    by rewrite lookup_insert_eq.
Qed.

Lemma fresh_node_unused (st : State) : nodes st !! fresh (dom (nodes st)) = None.
Proof. apply not_elem_of_dom, is_fresh. Qed.

Lemma invariant_fx_get (prop : string) (st : State) :
  invariant st -> invariant (final_state (fx_get prop st)).
Proof.
  intros (Harr & Hnd & Hl). rewrite fx_get_spec.
  destruct (root_truthy (target_lookup (root st) prop)); [done|]. simpl.
  pose proof (fresh_node_unused st) as Hfresh.
  set (n := fresh (dom (nodes st))) in *. split_and!.
  - intros n0 node0. simpl. destruct (decide (n = n0)) as [<-|Hne].
    + rewrite lookup_insert_eq. intros [= <-]. by eexists.
    + rewrite lookup_insert_ne by done. apply Harr.
  - intros n0 node0 l. simpl. destruct (decide (n = n0)) as [<-|Hne].
    + rewrite lookup_insert_eq. intros [= <-] [= <-]. apply NoDup_nil_2.
    + rewrite lookup_insert_ne by done. apply Hnd.
  - intros n0 node0 l e element. simpl. destruct (decide (n = n0)) as [<-|Hne].
    + rewrite lookup_insert_eq. intros [= <-] [= <-] Hin. by apply elem_of_nil in Hin.
    + rewrite lookup_insert_ne by done. apply Hl.
Qed.

(** ** Stores reachable by running the program *)

Lemma ordinary_Assign (n : NodeRef) (prop : string) (v : JsValue) :
  ordinary (Assign n prop v) = true -> prop <> "DOM".
Proof.
  unfold ordinary. simpl. intros H ->. discriminate H.
Qed.

Lemma reachable_invariant (st : State) : reachable st -> invariant st.
Proof.
  induction 1 as [st Hnodes _|st a Hord _ IH].
  - split_and!; intros n node; rewrite Hnodes, lookup_empty; done.
  - destruct a as [q|q r|k sel|k args|k prop v|e eventType|e name v]; simpl.
    + by apply invariant_fx_get.
    + done.
    + by apply invariant_bindDOM.
    + done.
    + eapply invariant_same; [|done].
      apply node_set_same. by eapply ordinary_Assign.
    + eapply invariant_same; [apply dispatchEvent_same|done].
    + eapply invariant_same; [apply host_write_same|done].
Qed.

(** * The claims *)

(** ** Value mode *)

(** C1, evaluated on the code: [updateDOMValues] hands the writer the
    channel [inferBindingType] names.  That is the channel the table of
    spec 4.4 gives for every element that is neither a checkbox nor a
    radio button; for a checkbox or radio [INPUT] the table gives
    [checked] and the code gives [value].  On the bound checked
    checkbox, assigning [false] to the node returns [true] and stores
    [false] in the node, but the table's channel of the element, its
    checked flag, still holds [true]: the value went to the [value]
    property, which is also what is read back.  (The element contents
    are those [updateDOM], as modelled, writes; the classification is
    the code's own.) *)
Theorem value_push_misses_the_checked_channel :
  (forall element, ~ boxed element ->
     inferBindingType element = spec_table_channel element) /\
  (forall element, tagName element = "INPUT" -> boxed element ->
     inferBindingType element = "value" /\ spec_table_channel element = "checked") /\
  inferBindingType checked_checkbox = "value" /\
  spec_table_channel checked_checkbox = "checked" /\
  (let pushed := run (node_set 0 "value" (JBool false)) bound_checkbox in
   node_set 0 "value" (JBool false) bound_checkbox = Returned true pushed /\
   node_get 0 "value" pushed = GData (JBool false) /\
   (fun element => element_prop element (spec_table_channel element))
     <$> doc_elements pushed !! 0 = Some (JBool true) /\
   getElementValue <$> doc_elements pushed !! 0 = Some (JBool false)) /\
  ~ pushed_per_table bound_checkbox 0 (JBool false).
Proof.
  split_and!.
  - apply inferBindingType_table.
  - intros element Htag Hbox. split.
    + unfold inferBindingType. by rewrite Htag.
    + unfold spec_table_channel. by rewrite (proj2 (boxed_spec element) Hbox).
  - reflexivity.
  - reflexivity.
  - vm_compute. by split_and!.
  - intros H.
    assert (Hin : 0 ∈ [0]) by (apply (bool_decide_unpack _); vm_compute; exact I).
    specialize (H (mkNode JNull (JObj []) (JElems [0]) ∅) [0] 0
                  (mkElement "INPUT" (JStr "checkbox") (JBool false) (JBool true)
                     (JNum (-1)) (JStr "") ∅ [mkListener "input" 0])
                  eq_refl eq_refl Hin eq_refl).
    vm_compute in H. discriminate H.
Qed.

(** C7: the read-back path reads the very property the classification
    names, the classification always names one of the four channels, and
    a value written to the property the classification names (what the
    write path of [updateDOMValues] asks for) is the value
    [getElementValue] then returns, the classification being unaffected
    by the write. *)
Theorem read_back_uses_write_channel (element : Element) :
  inferBindingType element ∈ ["value"; "selectedIndex"; "checked"; "innerHTML"] /\
  getElementValue element = element_prop element (inferBindingType element) /\
  forall v,
    inferBindingType (write_prop element (inferBindingType element) v)
      = inferBindingType element /\
    getElementValue (write_prop element (inferBindingType element) v) = v.
Proof.
  split_and!.
  - apply inferBindingType_cases.
  - apply getElementValue_element_prop.
  - intros v. split.
    + apply inferBindingType_write_prop.
    + apply (getElementValue_push_value v element).
Qed.

(** ** Nodes with no bound element *)

(** C10: when the bound-element list is empty, assigning any value to
    [value] and any value (mapping or not) to [attr] returns [true]
    without throwing; the store changes only in that the node holds the
    assigned value. *)
Theorem assignment_without_bound_elements
    (st : State) (n : NodeRef) (node : Node) (v : JsValue) :
  nodes st !! n = Some node -> DOM node = JElems [] ->
  node_set n "value" v st = Returned true (with_nodes (alter (set_value v) n) st) /\
  node_set n "attr" v st = Returned true (with_nodes (alter (set_attr v) n) st) /\
  node_get n "value" (with_nodes (alter (set_value v) n) st) = GData v /\
  node_get n "attr" (with_nodes (alter (set_attr v) n) st) = GData v.
Proof.
  intros Hn Hdom. split_and!.
  - rewrite (node_set_value_spec n node []) by done. by destruct st.
  - unfold node_set. simpl. unfold bind, target_update, modify.
    rewrite (updateDOMAttributes_unbound n (set_attr v node)); [reflexivity| |done].
    simpl. by rewrite lookup_alter_eq, Hn.
  - unfold node_get. simpl. by rewrite lookup_alter_eq, Hn.
  - unfold node_get. simpl. by rewrite lookup_alter_eq, Hn.
Qed.

Lemma assignment_without_bound_elements_witness :
  nodes unbound_node !! 0 = Some empty_node /\
  DOM empty_node = JElems [] /\
  node_set 0 "value" JNull unbound_node
    = Returned true (with_nodes (alter (set_value JNull) 0) unbound_node) /\
  node_set 0 "attr" JNull unbound_node
    = Returned true (with_nodes (alter (set_attr JNull) 0) unbound_node) /\
  node_get 0 "value" (with_nodes (alter (set_value JNull) 0) unbound_node)
    = GData JNull /\
  node_get 0 "attr" (with_nodes (alter (set_attr JNull) 0) unbound_node) = GData JNull.
Proof.
  split; [reflexivity|]. split; [reflexivity|].
  apply (assignment_without_bound_elements unbound_node 0 empty_node JNull);
    reflexivity.
Defined.

(** ** Attribute mode *)

(** C8: assigning a mapping to [attr] (of a node whose [DOM] is its
    array of bound elements) stores it, returns [true], and on every
    bound element sets each of the mapping's own pairs as an attribute;
    every attribute key absent from the mapping keeps the value it had
    (nothing is removed or cleared), the element's other properties are
    unchanged, and unbound elements are untouched. *)
Theorem attr_assignment_applies_current_pairs
    (st : State) (n : NodeRef) (node : Node) (l : list ElemRef)
    (entries : list (string * JsValue)) :
  nodes st !! n = Some node ->
  DOM node = JElems l ->
  NoDup entries.*1 ->
  exists st',
    node_set n "attr" (JObj entries) st = Returned true st' /\
    nodes st' !! n = Some (set_attr (JObj entries) node) /\
    (forall e element,
        e ∈ l -> doc_elements st !! e = Some element ->
        exists element',
          doc_elements st' !! e = Some element' /\
          (forall k v, (k, v) ∈ entries -> attributes element' !! k = Some v) /\
          (forall k, k ∉ entries.*1 ->
                     attributes element' !! k = attributes element !! k) /\
          shape element' = shape element /\
          (forall name, element_prop element' name = element_prop element name)) /\
    (forall e, e ∉ l -> doc_elements st' !! e = doc_elements st !! e).
Proof.
  intros Hn Hdom Hnd. eexists. split; [by apply (node_set_attr_spec n node l)|].
  split_and!.
  - simpl. by rewrite lookup_alter_eq, Hn.
  - intros e element Hin He. exists (apply_entries entries element). simpl.
    rewrite (foldl_alter_lookup _ _ _ _ (apply_entries_idem entries)).
    rewrite bool_decide_eq_true_2 by done. rewrite He.
    rewrite apply_entries_fields. split_and!.
    + simpl. by rewrite apply_entries_fields.
    + intros k v Hkv. simpl. rewrite lookup_foldl_insert.
      by rewrite (last_value_Some k v).
    + intros k Hk. simpl. rewrite lookup_foldl_insert.
      by rewrite last_value_None.
    + reflexivity.
    + intros name. reflexivity.
  - intros e Hnot. simpl.
    rewrite (foldl_alter_lookup _ _ _ _ (apply_entries_idem entries)).
    by rewrite bool_decide_eq_false_2.
Qed.

Lemma attr_assignment_applies_current_pairs_witness :
  nodes bound_inputs !! 0 = Some bound_node /\
  DOM bound_node = JElems [0; 1] /\
  NoDup id_class.*1 /\
  exists st',
    node_set 0 "attr" (JObj id_class) bound_inputs = Returned true st' /\
    nodes st' !! 0 = Some (set_attr (JObj id_class) bound_node) /\
    (forall e element,
        e ∈ [0; 1] -> doc_elements bound_inputs !! e = Some element ->
        exists element',
          doc_elements st' !! e = Some element' /\
          (forall k v, (k, v) ∈ id_class -> attributes element' !! k = Some v) /\
          (forall k, k ∉ id_class.*1 ->
                     attributes element' !! k = attributes element !! k) /\
          shape element' = shape element /\
          (forall name, element_prop element' name = element_prop element name)) /\
    (forall e, e ∉ [0; 1] ->
               doc_elements st' !! e = doc_elements bound_inputs !! e).
Proof.
  assert (Hnd : NoDup id_class.*1)
    by (apply (bool_decide_unpack _); vm_compute; exact I).
  split; [reflexivity|]. split; [reflexivity|]. split; [exact Hnd|].
  apply (attr_assignment_applies_current_pairs bound_inputs 0 bound_node [0; 1]
           id_class); [reflexivity|reflexivity|exact Hnd].
Defined.

(** ** Binding *)

(** C9: a selector the document matches with no element makes [bindDOM]
    return the node with the store unchanged: no entry is added to any
    bound-element list, no listener is attached and nothing is thrown;
    the same holds when the selector is given as a property of [$]. *)
Theorem non_matching_selector_binds_nothing
    (st : State) (n : NodeRef) (selector : string) :
  querySelectorAll st selector = inr [] ->
  bindDOM selector n st = Returned n st /\
  dollar_dot n selector st = Returned n st.
Proof.
  intros Hq.
  assert (H : bindDOM selector n st = Returned n st)
    by (unfold bindDOM; rewrite Hq; reflexivity).
  split; [exact H|].
  unfold dollar_dot. simpl. exact H.
Qed.

Lemma non_matching_selector_binds_nothing_witness :
  querySelectorAll bound_inputs "ul > li" = inr [] /\
  bindDOM "ul > li" 0 bound_inputs = Returned 0 bound_inputs /\
  dollar_dot 0 "ul > li" bound_inputs = Returned 0 bound_inputs.
Proof.
  split; [reflexivity|].
  apply (non_matching_selector_binds_nothing bound_inputs 0 "ul > li").
  reflexivity.
Defined.

(** [bindDOM] keeps a duplicate-free bound-element list duplicate-free:
    the list grows by a run of matched elements none of which was in it,
    and binding the same selector again changes nothing at all. *)
Lemma bindDOM_extends_without_duplicates
    (st : State) (selector : string) (n : NodeRef) (node : Node) (l : list ElemRef) :
  nodes st !! n = Some node ->
  DOM node = JElems l ->
  NoDup l ->
  let st' := final_state (bindDOM selector n st) in
  (exists added,
      nodes st' !! n
        = Some (mkNode (value node) (attr node) (JElems (l ++ added)) (extra node)) /\
      NoDup (l ++ added) /\
      (forall e, e ∈ added -> e ∉ l)) /\
  bindDOM selector n st' = bindDOM selector n st.
Proof.
  intros Hn Hdom Hnd st'. subst st'. rewrite (bindDOM_spec selector n node l st Hn Hdom).
  destruct (querySelectorAll st selector) as [err|elems] eqn:Hq; simpl.
  - rewrite (bindDOM_spec selector n node l st Hn Hdom), Hq. split; [|reflexivity].
    exists []. rewrite app_nil_r. split_and!; [|done|].
    + rewrite Hn, <- Hdom. by destruct node.
    + intros e H. by apply elem_of_nil in H.
  - destruct (bind_steps_DOM n node l elems st Hn Hdom Hnd)
      as (added & Hlook & Hnd' & Hnew & Hall).
    split.
    + exists added. split_and!; [done|done|]. intros e He. by apply Hnew.
    + rewrite (bindDOM_spec selector n _ (l ++ added) _ Hlook eq_refl).
      rewrite bind_steps_query, Hq. f_equal.
      by apply (bind_steps_bound n _ (l ++ added) elems _ Hlook).
Qed.

(** The store [bound_inputs] is built by the program:
    [fx.name], then [fx.name.$.input]. *)
Lemma bound_inputs_reachable : reachable bound_inputs.
Proof.
  apply (reachable_step _ (SelectDot 0 "input")); [reflexivity|].
  apply (reachable_step _ (ReadRoot "name")); [reflexivity|].
  apply reachable_initial; reflexivity.
Qed.

(** C6, as the code has it: in every store the program builds while the
    caller leaves the [DOM] property of the nodes to [bindDOM], the
    [DOM] property of every node is an array free of duplicates;
    binding any selector extends it by a run of elements none of which
    was in it, the result is again free of duplicates, and binding the
    same selector a second time changes nothing at all (same outcome,
    same store). *)
Theorem bound_elements_never_duplicated
    (st : State) (n : NodeRef) (node : Node) :
  reachable st ->
  nodes st !! n = Some node ->
  exists l,
    DOM node = JElems l /\
    NoDup l /\
    forall selector,
      let st' := final_state (bindDOM selector n st) in
      (exists added,
          nodes st' !! n
            = Some (mkNode (value node) (attr node) (JElems (l ++ added))
                           (extra node)) /\
          NoDup (l ++ added) /\
          (forall e, e ∈ added -> e ∉ l)) /\
      bindDOM selector n st' = bindDOM selector n st.
Proof.
  intros Hreach Hn.
  destruct (reachable_invariant st Hreach) as (Harr & Hnd & _).
  destruct (Harr n node Hn) as [l Hdom]. exists l.
  split; [done|]. split; [by eapply Hnd|].
  intros selector. apply bindDOM_extends_without_duplicates; [done|done|by eapply Hnd].
Qed.

Lemma bound_elements_never_duplicated_witness :
  reachable bound_inputs /\
  nodes bound_inputs !! 0 = Some bound_node /\
  exists l,
    DOM bound_node = JElems l /\
    NoDup l /\
    forall selector,
      let st' := final_state (bindDOM selector 0 bound_inputs) in
      (exists added,
          nodes st' !! 0
            = Some (mkNode (value bound_node) (attr bound_node)
                           (JElems (l ++ added)) (extra bound_node)) /\
          NoDup (l ++ added) /\
          (forall e, e ∈ added -> e ∉ l)) /\
      bindDOM selector 0 st' = bindDOM selector 0 bound_inputs.
Proof.
  assert (Hreach : reachable bound_inputs).
  { apply (reachable_step _ (SelectDot 0 "input")); [reflexivity|].
    apply (reachable_step _ (ReadRoot "name")); [reflexivity|].
    apply reachable_initial; reflexivity. }
  split; [exact Hreach|]. split; [reflexivity|].
  apply (bound_elements_never_duplicated bound_inputs 0 bound_node);
    [exact Hreach|reflexivity].
Defined.

(** Against C6 as stated: the [set] trap lets a caller replace the
    array.  After [fx.name.DOM = [first, first]] the list of the node
    holds the first input twice, and binding again does not repair it. *)
Lemma replaced_list_holds_duplicates :
  ~ no_duplicates doubled_list /\
  ~ no_duplicates (run (dollar_dot 0 "input") doubled_list).
Proof.
  split; intros H.
  - specialize (H 0 (mkNode JNull (JObj []) (JElems [0; 0]) ∅) [0; 0] eq_refl eq_refl).
    apply NoDup_cons in H as [Hnot _]. apply Hnot. by left.
  - specialize (H 0 (mkNode JNull (JObj []) (JElems [0; 0; 1]) ∅) [0; 0; 1]
                  eq_refl eq_refl).
    apply NoDup_cons in H as [Hnot _]. apply Hnot. by left.
Qed.

(** ** Events *)

Lemma run_listeners_spec (e : ElemRef) (element : Element)
    (ls : list Listener) (st : State) :
  doc_elements st !! e = Some element ->
  forEach ls (run_listener e) st
  = Returned tt
      (with_nodes
         (fun m => foldl (fun m k => alter (set_value (getElementValue element)) k m)
                         m (l_node <$> ls)) st).
Proof.
  revert st. induction ls as [|l ls IH]; intros st He; simpl.
  - by destruct st.
  - unfold bind at 1, run_listener at 1. rewrite He.
    unfold target_update, modify. rewrite IH by done. by destruct st.
Qed.

Lemma dispatchEvent_spec (e : ElemRef) (eventType : string)
    (element : Element) (st : State) :
  doc_elements st !! e = Some element ->
  dispatchEvent e eventType st
  = Returned tt
      (with_nodes
         (fun m => foldl (fun m k => alter (set_value (getElementValue element)) k m) m
                     (l_node <$> filter (fun l => l_event l = eventType)
                                        (listeners element))) st).
Proof.
  intros He. unfold dispatchEvent. rewrite He. by apply run_listeners_spec.
Qed.

Lemma set_value_idem (v : JsValue) (node : Node) :
  set_value v (set_value v node) = set_value v node.
Proof. reflexivity. Qed.

(** Firing an event at an element that carries a listener for it. *)
Lemma listener_stores_element_value
    (st : State) (n : NodeRef) (node : Node) (e : ElemRef) (element : Element) :
  nodes st !! n = Some node ->
  doc_elements st !! e = Some element ->
  mkListener (inferEventType element) n ∈ listeners element ->
  exists st',
    dispatchEvent e (inferEventType element) st = Returned tt st' /\
    nodes st' !! n = Some (set_value (getElementValue element) node) /\
    node_get n "value" st' = GData (getElementValue element) /\
    doc_elements st' = doc_elements st.
Proof.
  intros Hn He Hl. eexists. split; [by apply dispatchEvent_spec|].
  assert (Hn' :
    foldl (fun m k => alter (set_value (getElementValue element)) k m) (nodes st)
      (l_node <$> filter (fun l => l_event l = inferEventType element)
                         (listeners element)) !! n
    = Some (set_value (getElementValue element) node)).
  { rewrite (foldl_alter_lookup _ _ _ _ (set_value_idem (getElementValue element))).
    rewrite bool_decide_eq_true_2; [by rewrite Hn|].
    apply list_elem_of_fmap. exists (mkListener (inferEventType element) n).
    split; [reflexivity|]. by apply list_elem_of_filter. }
  split_and!; [exact Hn'| |reflexivity].
  unfold node_get. simpl. by rewrite Hn'.
Qed.

Lemma typed_input_reachable : reachable typed_input.
Proof.
  apply (reachable_step _ (Edit 0 "value" (JStr "typed"))); [reflexivity|].
  exact bound_inputs_reachable.
Qed.




(** ** Checkbox and radio inputs *)

Lemma input_tag_decides (element : Element) :
  tagName element = "INPUT" ->
  inferBindingType element = "value" /\ inferEventType element = "input".
Proof.
  intros Htag. unfold inferBindingType, inferEventType. by rewrite Htag.
Qed.

(** C3, evaluated on the code: for a checkbox input the classification
    answers [value] and [input], because the tag test comes first.  The
    listener is therefore registered for [input]; a [change] event on
    the checked checkbox leaves the node's value [null]; an [input]
    event stores the element's [value] property, not its checked flag;
    and pushing a node value writes the [value] property and leaves the
    checked flag as it was. *)
Theorem checkbox_input_is_bound_through_value :
  inferBindingType checked_checkbox = "value" /\
  inferEventType checked_checkbox = "input" /\
  listeners <$> doc_elements bound_checkbox !! 0 = Some [mkListener "input" 0] /\
  node_get 0 "value" (run (dispatchEvent 0 "change") bound_checkbox) = GData JNull /\
  node_get 0 "value" (run (dispatchEvent 0 "input") bound_checkbox)
    = GData (JStr "on") /\
  let pushed := run (node_set 0 "value" (JBool false)) bound_checkbox in
  checked <$> doc_elements pushed !! 0 = Some (JBool true) /\
  el_value <$> doc_elements pushed !! 0 = Some (JBool false).
Proof. vm_compute. by split_and!. Qed.

(** ** The two call shapes of the binder *)

(** C4, evaluated on the code: the binder proxy wraps the plain object
    [{}], which is not callable, so invoking [$] as a function throws a
    TypeError before the [apply] trap can run: nothing is queried and
    the store is unchanged.  Reading a property name off [$] does reach
    [bindDOM] with that name as the selector. *)
Theorem direct_invocation_throws (st : State) (n : NodeRef) (args : list string) :
  dollar_call n args st = Thrown TypeError st /\
  forall p, dollar_dot n p st = bindDOM p n st.
Proof. split; [reflexivity|]. intros p. reflexivity. Qed.

(** ** The root object *)

Lemma same_root_refl (st : State) : same_root st st.
Proof. reflexivity. Qed.

Lemma same_root_trans (st1 st2 st3 : State) :
  same_root st1 st2 -> same_root st2 st3 -> same_root st1 st3.
Proof. unfold same_root. congruence. Qed.

Local Ltac step_root :=
  step_preserves same_root_refl same_root_trans;
  try (apply preserves_modify; intros ?; reflexivity).

Lemma bind_step_root (n : NodeRef) (e : ElemRef) (st : State) :
  root (bind_step n e st) = root st.
Proof.
  unfold bind_step. destruct (nodes st !! n) as [node|]; [|reflexivity].
  destruct (DOM node); try reflexivity.
  case_bool_decide; reflexivity.
Qed.

Lemma bind_steps_root (n : NodeRef) (elems : list ElemRef) (st : State) :
  root (foldl (fun s e => bind_step n e s) st elems) = root st.
Proof.
  revert st. induction elems as [|e elems IH]; intros st; simpl; [reflexivity|].
  by rewrite IH, bind_step_root.
Qed.

Lemma bindDOM_same_root (selector : string) (n : NodeRef) :
  preserves same_root (bindDOM selector n).
Proof.
  intros st. unfold same_root. rewrite bindDOM_final.
  destruct (querySelectorAll st selector) as [err|elems]; [reflexivity|].
  apply bind_steps_root.
Qed.

Lemma node_set_same_root (n : NodeRef) (prop : string) (v : JsValue) :
  preserves same_root (node_set n prop v).
Proof.
  unfold node_set, target_update.
  destruct (String.eqb prop "value"); [|destruct (String.eqb prop "attr")]; step_root.
  - intros st. unfold updateDOMValues.
    destruct (nodes st !! n) as [node|]; [|reflexivity].
    revert st. unfold element_update. step_root.
  - intros st. unfold updateDOMAttributes.
    destruct (nodes st !! n) as [node|]; [|reflexivity].
    revert st. step_root.
    destruct (Object_entries (attr node)); unfold element_update; step_root.
Qed.

Lemma dispatchEvent_same_root (e : ElemRef) (eventType : string) :
  preserves same_root (dispatchEvent e eventType).
Proof.
  intros st. unfold dispatchEvent.
  destruct (doc_elements st !! e) as [element|]; [|reflexivity].
  revert st. step_root. intros st. unfold run_listener.
  destruct (doc_elements st !! e); reflexivity.
Qed.

(** A node stored under a name stays there whatever the program does,
    as long as the caller does not assign the name itself. *)
Lemma perform_keeps_root_node (a : Action) (st : State) (p : string) (n : NodeRef) :
  overwrites_root p a = false ->
  root st !! p = Some (RNode n) -> root (perform a st) !! p = Some (RNode n).
Proof.
  intros Ha Hp. destruct a as [q|q r|k sel|k args|k prop v|e eventType|e name v].
  - simpl. rewrite fx_get_spec.
    destruct (root_truthy (target_lookup (root st) q)) eqn:Hq; [done|]. simpl.
    rewrite lookup_insert_ne; [done|]. intros ->.
    unfold target_lookup in Hq. by rewrite Hp in Hq.
  - simpl in *. rewrite lookup_insert_ne; [done|].
    by apply String.eqb_neq.
  - change (perform (SelectDot k sel) st) with (final_state (bindDOM sel k st)).
    by rewrite (bindDOM_same_root sel k st).
  - done.
  - unfold perform. by rewrite (node_set_same_root k prop v st).
  - unfold perform. by rewrite (dispatchEvent_same_root e eventType st).
  - done.
Qed.

Lemma fx_get_stored (st : State) (p : string) (n : NodeRef) :
  root st !! p = Some (RNode n) -> fx_get p st = Returned (RNode n) st.
Proof.
  intros Hp. rewrite fx_get_spec. unfold target_lookup. by rewrite Hp.
Qed.

(** C5, as the code has it: when the root's object does not own the
    name, a read of a name inherited from [Object.prototype] returns the
    inherited member and leaves the store as it is (no node is created);
    a read of any other name allocates a node that did not exist,
    initialised to [{ value: null, attr: {}, DOM: [] }], stores it under
    the name and returns it, leaving the existing nodes alone; and
    whatever the caller, the host and the user do afterwards, short of
    the caller assigning [fx[p]] itself, reading the name again returns
    that same node without touching the store. *)
Theorem root_read_creates_once (st : State) (p : string) :
  root st !! p = None ->
  (inherited p = true -> fx_get p st = Returned (RBuiltin p) st) /\
  (inherited p = false ->
   exists n st',
     fx_get p st = Returned (RNode n) st' /\
     nodes st !! n = None /\
     nodes st' !! n = Some empty_node /\
     root st' !! p = Some (RNode n) /\
     (forall k node, nodes st !! k = Some node -> nodes st' !! k = Some node) /\
     forall later : list Action,
       Forall (fun a => overwrites_root p a = false) later ->
       let st'' := foldl (fun s a => perform a s) st' later in
       fx_get p st'' = Returned (RNode n) st'').
Proof.
  intros Hp. split; intros Hinh.
  - rewrite fx_get_spec. unfold target_lookup. by rewrite Hp, Hinh.
  - rewrite fx_get_spec. unfold target_lookup. rewrite Hp, Hinh. simpl.
    pose proof (fresh_node_unused st) as Hfresh.
    set (n := fresh (dom (nodes st))) in *.
    eexists n, _. split; [reflexivity|]. split_and!.
    + exact Hfresh.
    + simpl. apply lookup_insert_eq.
    + simpl. apply lookup_insert_eq.
    + intros k node Hk. simpl. rewrite lookup_insert_ne; [done|]. congruence.
    + intros later Hlater. apply fx_get_stored.
      induction later as [|a later IH] using rev_ind; simpl.
      * apply lookup_insert_eq.
      * apply Forall_app in Hlater as [Hlater Ha].
        rewrite Forall_singleton in Ha.
        rewrite foldl_app. simpl.
        apply perform_keeps_root_node; [done|by apply IH].
Qed.

Lemma root_read_creates_once_witness :
  root two_inputs !! "name" = None /\
  (inherited "name" = true ->
   fx_get "name" two_inputs = Returned (RBuiltin "name") two_inputs) /\
  (inherited "name" = false ->
   exists n st',
     fx_get "name" two_inputs = Returned (RNode n) st' /\
     nodes two_inputs !! n = None /\
     nodes st' !! n = Some empty_node /\
     root st' !! "name" = Some (RNode n) /\
     (forall k node, nodes two_inputs !! k = Some node -> nodes st' !! k = Some node) /\
     forall later : list Action,
       Forall (fun a => overwrites_root "name" a = false) later ->
       let st'' := foldl (fun s a => perform a s) st' later in
       fx_get "name" st'' = Returned (RNode n) st'').
Proof.
  split; [reflexivity|].
  apply (root_read_creates_once two_inputs "name"); reflexivity.
Defined.

(** Against C5 as stated.  [fx.constructor] finds the member every
    object inherits and returns it; no node is created.  And a node the
    root returned is not returned for ever: [fx.name] returns the node 0,
    but after the caller's [fx.name = null] the next read of [fx.name]
    creates and returns another node. *)
Lemma root_read_neither_always_creates_nor_keeps :
  ~ lazily_creates two_inputs "constructor" /\
  fx_get "name" two_inputs = Returned (RNode 0) unbound_node /\
  (exists st', fx_get "name" overwritten_root = Returned (RNode 1) st') /\
  ~ stays_memoized unbound_node "name" 0.
Proof.
  split_and!.
  - intros H. destruct (H eq_refl) as (n & st' & Hget & _).
    vm_compute in Hget. discriminate Hget.
  - reflexivity.
  - eexists. reflexivity.
  - intros H. specialize (H [WriteRoot "name" (RData JNull)]).
    vm_compute in H. discriminate H.
Qed.

(** * Further properties of the code *)

(** ** Classification (FX.js lines 82-95) *)

(** X1: the event listened for is decided by the channel: it is
    [change] exactly for the [selectedIndex] and [checked] channels and
    [input] exactly for the [value] and [innerHTML] channels. *)
Theorem event_follows_channel (element : Element) :
  (inferEventType element = "change" <->
   inferBindingType element = "selectedIndex" \/ inferBindingType element = "checked") /\
  (inferEventType element = "input" <->
   inferBindingType element = "value" \/ inferBindingType element = "innerHTML").
Proof.
  unfold inferEventType, inferBindingType.
  repeat (match goal with |- context [if ?b then _ else _] => destruct b end);
    split; split; intros H; try discriminate H;
    try (destruct H as [H|H]; discriminate H);
    first [reflexivity | by left | by right].
Qed.

(** X2: which elements get which channel.  The tag decides first:
    [INPUT] and [TEXTAREA] always get [value], [SELECT] always gets
    [selectedIndex]; the [checked] channel is used only for an element
    with another tag whose [type] is [checkbox] or [radio]; everything
    else gets [innerHTML]. *)
Theorem channel_by_tag_then_type (element : Element) :
  let tag := tagName element in
  let boxed := el_type element = JStr "checkbox" \/ el_type element = JStr "radio" in
  (inferBindingType element = "value" <-> tag = "INPUT" \/ tag = "TEXTAREA") /\
  (inferBindingType element = "selectedIndex" <-> tag = "SELECT") /\
  (inferBindingType element = "checked" <->
   tag <> "INPUT" /\ tag <> "TEXTAREA" /\ tag <> "SELECT" /\ boxed) /\
  (inferBindingType element = "innerHTML" <->
   tag <> "INPUT" /\ tag <> "TEXTAREA" /\ tag <> "SELECT" /\ ~ boxed).
Proof.
  intros tag boxed. subst tag boxed. unfold inferBindingType.
  assert (Hbox :
    strict_eq_str (el_type element) "checkbox"
    || strict_eq_str (el_type element) "radio" = true
    <-> el_type element = JStr "checkbox" \/ el_type element = JStr "radio")
    by (by rewrite orb_true_iff, !strict_eq_str_true).
  destruct (String.eqb_spec (tagName element) "INPUT") as [Hi|Hi];
    destruct (String.eqb_spec (tagName element) "TEXTAREA") as [Ht|Ht];
    destruct (String.eqb_spec (tagName element) "SELECT") as [Hs|Hs];
    simpl;
    try (destruct (strict_eq_str (el_type element) "checkbox"
                   || strict_eq_str (el_type element) "radio") eqn:Hb;
         [assert (Hyes := proj1 Hbox eq_refl)
         |assert (Hno : ~ (el_type element = JStr "checkbox"
                           \/ el_type element = JStr "radio"))
            by (intros H%Hbox; discriminate H)]);
    clear Hbox;
    (split_and!; split; intros H; first [discriminate H | congruence | tauto]).
Qed.

(** ** The set trap (FX.js lines 26-39, 65-79) *)

Lemma State_eq (st st' : State) :
  doc_elements st = doc_elements st' ->
  querySelectorAll st = querySelectorAll st' ->
  element_text st = element_text st' ->
  nodes st = nodes st' ->
  root st = root st' ->
  st = st'.
Proof. destruct st, st'; simpl; intros; by subst. Qed.

Lemma alter_alter {V} (f g : V -> V) (k : nat) (m : gmap nat V) :
  alter f k (alter g k m) = alter (fun x => f (g x)) k m.
Proof.
  apply map_eq. intros i. destruct (decide (k = i)) as [->|].
  - rewrite !lookup_alter_eq. by destruct (m !! i).
  - by rewrite !lookup_alter_ne.
Qed.

Lemma foldl_alter_id {V} (l : list nat) (m : gmap nat V) :
  foldl (fun m e => alter (fun x => x) e m) m l = m.
Proof.
  apply map_eq. intros k.
  rewrite (foldl_alter_lookup (fun x => x)) by done.
  case_bool_decide; [|done]. by destruct (m !! k).
Qed.

(** Applying [g] to the listed entries after [f] is applying [h] to
    them, when [g] after [f] is [h] on every value. *)
Lemma foldl_alter_absorb {V} (f g h : V -> V) (l : list nat) (m : gmap nat V) :
  (forall x, f (f x) = f x) -> (forall x, g (g x) = g x) -> (forall x, h (h x) = h x) ->
  (forall x, g (f x) = h x) ->
  foldl (fun m e => alter g e m) (foldl (fun m e => alter f e m) m l) l
  = foldl (fun m e => alter h e m) m l.
Proof.
  intros Hf Hg Hh Hgf. apply map_eq. intros k.
  rewrite (foldl_alter_lookup g), (foldl_alter_lookup f), (foldl_alter_lookup h) by done.
  case_bool_decide; [|done]. destruct (m !! k); simpl; [by rewrite Hgf|done].
Qed.

Lemma push_value_overwrite (v1 v2 : JsValue) (element : Element) :
  push_value v2 (push_value v1 element) = push_value v2 element.
Proof.
  unfold push_value, updateDOM. rewrite inferBindingType_write_prop.
  pose proof (inferBindingType_cases element) as H.
  repeat (apply elem_of_cons in H as [->|H]); [..|by apply elem_of_nil in H];
    reflexivity.
Qed.

Lemma apply_entries_push_value (entries : list (string * JsValue)) (v : JsValue)
    (element : Element) :
  apply_entries entries (push_value v element)
  = push_value v (apply_entries entries element).
Proof.
  rewrite !apply_entries_fields. unfold push_value, updateDOM.
  change (inferBindingType (mkElement _ _ _ _ _ _ _ _))
    with (inferBindingType element).
  pose proof (inferBindingType_cases element) as H.
  repeat (apply elem_of_cons in H as [->|H]); [..|by apply elem_of_nil in H];
    reflexivity.
Qed.

Lemma apply_no_entries (element : Element) : apply_entries [] element = element.
Proof. reflexivity. Qed.

Lemma bound_array (node : Node) (l : list ElemRef) :
  DOM node = JElems l -> bound node = l.
Proof. intros Hdom. unfold bound. by rewrite Hdom. Qed.

Lemma bound_no_array (node : Node) :
  (forall l, DOM node <> JElems l) -> bound node = [].
Proof.
  intros Hdom. unfold bound. destruct (DOM node) eqn:Heq; try reflexivity.
  by destruct (Hdom l).
Qed.

Lemma DOM_forEach_no_array (node : Node) (body : ElemRef -> M unit) (st : State) :
  (forall l, DOM node <> JElems l) ->
  DOM_forEach node body st = Thrown TypeError st.
Proof.
  intros Hdom. unfold DOM_forEach. destruct (DOM node) eqn:Heq; try reflexivity.
  by destruct (Hdom l).
Qed.

Lemma array_or_not (node : Node) :
  (exists l, DOM node = JElems l) \/ (forall l, DOM node <> JElems l).
Proof.
  destruct (DOM node); first [by left; eexists | by right].
Qed.

(** The store an [attr] assignment leaves, whether it returns or throws. *)
Lemma node_set_attr_final (n : NodeRef) (node : Node) (v : JsValue) (st : State) :
  nodes st !! n = Some node ->
  final_state (node_set n "attr" v st)
  = with_elements
      (fun m => foldl (fun m e => alter (apply_entries (applied_pairs v)) e m) m
                      (bound node))
      (with_nodes (alter (set_attr v) n) st).
Proof.
  intros Hn.
  assert (Hn' : nodes (with_nodes (alter (set_attr v) n) st) !! n
                = Some (set_attr v node))
    by (simpl; by rewrite lookup_alter_eq, Hn).
  destruct (array_or_not node) as [[l Hdom]|Hdom].
  - rewrite (bound_array node l Hdom). unfold applied_pairs.
    destruct (Object_entries v) as [err|entries] eqn:Hentries.
    + unfold node_set. simpl. unfold bind at 1, target_update, modify.
      unfold bind, updateDOMAttributes, DOM_forEach. rewrite Hn'. simpl.
      rewrite Hdom, Hentries.
      destruct l as [|e l]; simpl.
      * reflexivity.
      * apply State_eq; simpl; try reflexivity. symmetry.
        apply (foldl_alter_id (e :: l)).
    + by rewrite (node_set_attr_spec n node l v entries).
  - rewrite (bound_no_array node Hdom).
    unfold node_set. simpl. unfold bind at 1, target_update, modify.
    unfold bind, updateDOMAttributes. rewrite Hn'.
    rewrite DOM_forEach_no_array by done. reflexivity.
Qed.

Lemma node_set_value_final (n : NodeRef) (node : Node) (v : JsValue) (st : State) :
  nodes st !! n = Some node ->
  final_state (node_set n "value" v st)
  = with_elements
      (fun m => foldl (fun m e => alter (push_value v) e m) m (bound node))
      (with_nodes (alter (set_value v) n) st).
Proof.
  intros Hn.
  assert (Hn' : nodes (with_nodes (alter (set_value v) n) st) !! n
                = Some (set_value v node))
    by (simpl; by rewrite lookup_alter_eq, Hn).
  destruct (array_or_not node) as [[l Hdom]|Hdom].
  - rewrite (bound_array node l Hdom). by rewrite (node_set_value_spec n node l).
  - rewrite (bound_no_array node Hdom).
    unfold node_set. simpl. unfold bind at 1, target_update, modify.
    unfold bind, updateDOMValues. rewrite Hn'.
    rewrite DOM_forEach_no_array by done. reflexivity.
Qed.

(** X3: the last value assigned wins: assigning [v1] and then [v2]
    leaves exactly the store that assigning [v2] alone leaves; in
    particular a redundant assignment of the same value changes nothing
    further.  (The element contents are those [updateDOM], as modelled,
    writes.) *)
Theorem last_value_assignment_wins
    (st : State) (n : NodeRef) (node : Node) (v1 v2 : JsValue) :
  nodes st !! n = Some node ->
  final_state (node_set n "value" v2 (final_state (node_set n "value" v1 st)))
  = final_state (node_set n "value" v2 st).
Proof.
  intros Hn.
  rewrite (node_set_value_final n node v1 st Hn).
  rewrite (node_set_value_final n (set_value v1 node) v2);
    [|simpl; by rewrite lookup_alter_eq, Hn].
  rewrite (node_set_value_final n node v2 st Hn).
  apply State_eq; simpl; try reflexivity.
  - apply foldl_alter_absorb;
      [apply push_value_idem..|intros x; apply push_value_overwrite].
  - by rewrite alter_alter.
Qed.

Lemma last_value_assignment_wins_witness :
  nodes bound_inputs !! 0 = Some bound_node /\
  final_state (node_set 0 "value" (JStr "b")
                 (final_state (node_set 0 "value" (JStr "a") bound_inputs)))
  = final_state (node_set 0 "value" (JStr "b") bound_inputs).
Proof.
  split; [reflexivity|].
  apply (last_value_assignment_wins bound_inputs 0 bound_node (JStr "a") (JStr "b")).
  reflexivity.
Defined.

(** X4: assignments to [value] and to [attr] do not interfere: made in
    either order they leave the same store, also when the [attr]
    assignment throws.  (The element contents are those [updateDOM], as
    modelled, writes.) *)
Theorem value_and_attr_assignments_commute
    (st : State) (n : NodeRef) (node : Node) (v a : JsValue) :
  nodes st !! n = Some node ->
  final_state (node_set n "attr" a (final_state (node_set n "value" v st)))
  = final_state (node_set n "value" v (final_state (node_set n "attr" a st))).
Proof.
  intros Hn.
  rewrite (node_set_value_final n node v st Hn).
  rewrite (node_set_attr_final n (set_value v node) a);
    [|simpl; by rewrite lookup_alter_eq, Hn].
  rewrite (node_set_attr_final n node a st Hn).
  rewrite (node_set_value_final n (set_attr a node) v);
    [|simpl; by rewrite lookup_alter_eq, Hn].
  change (bound (set_value v node)) with (bound node).
  change (bound (set_attr a node)) with (bound node).
  generalize (bound node). intros l.
  apply State_eq; simpl; try reflexivity.
  - apply map_eq. intros k.
    repeat first
      [ rewrite (foldl_alter_lookup (apply_entries (applied_pairs a)))
          by apply apply_entries_idem
      | rewrite (foldl_alter_lookup (push_value v)) by apply push_value_idem ].
    case_bool_decide; [|done].
    destruct (doc_elements st !! k); simpl; [|done].
    by rewrite apply_entries_push_value.
  - by rewrite !alter_alter.
Qed.

Lemma value_and_attr_assignments_commute_witness :
  nodes bound_inputs !! 0 = Some bound_node /\
  final_state (node_set 0 "attr" (JObj id_class)
                 (final_state (node_set 0 "value" (JStr "a") bound_inputs)))
  = final_state (node_set 0 "value" (JStr "a")
                   (final_state (node_set 0 "attr" (JObj id_class) bound_inputs))).
Proof.
  split; [reflexivity|].
  apply (value_and_attr_assignments_commute bound_inputs 0 bound_node
           (JStr "a") (JObj id_class)).
  reflexivity.
Defined.

(** X5: while [DOM] is the array of the node, an [attr] assignment
    throws exactly when the value is [null] or [undefined] and the node
    has a bound element: then it throws a TypeError after having stored
    the value in the node, and no element has been touched.  In every
    other case it returns [true]. *)
Theorem attr_assignment_throws_on_nullish
    (st : State) (n : NodeRef) (node : Node) (l : list ElemRef) (v : JsValue) :
  nodes st !! n = Some node ->
  DOM node = JElems l ->
  (nullish v = true -> l <> [] ->
   node_set n "attr" v st = Thrown TypeError (with_nodes (alter (set_attr v) n) st)) /\
  (nullish v = false \/ l = [] ->
   exists st', node_set n "attr" v st = Returned true st').
Proof.
  intros Hn Hdom. split.
  - intros Hv Hl. unfold node_set. simpl.
    unfold bind at 1, target_update, modify.
    unfold bind, updateDOMAttributes, DOM_forEach. simpl.
    rewrite lookup_alter_eq, Hn. simpl. rewrite Hdom.
    destruct l as [|e l]; [done|].
    destruct v; try discriminate Hv; reflexivity.
  - intros [Hv|Hl].
    + destruct (Object_entries v) as [err|entries] eqn:Hentries;
        [destruct v; discriminate|].
      eexists. by apply (node_set_attr_spec n node l v entries).
    + subst l. eexists. unfold node_set. simpl. unfold bind, target_update, modify.
      rewrite (updateDOMAttributes_unbound n (set_attr v node)); [reflexivity| |done].
      simpl. by rewrite lookup_alter_eq, Hn.
Qed.

Lemma attr_assignment_throws_on_nullish_witness :
  nodes bound_inputs !! 0 = Some bound_node /\
  DOM bound_node = JElems [0; 1] /\
  (nullish JNull = true -> [0; 1] <> [] ->
   node_set 0 "attr" JNull bound_inputs
   = Thrown TypeError (with_nodes (alter (set_attr JNull) 0) bound_inputs)) /\
  (nullish JNull = false \/ [0; 1] = [] ->
   exists st', node_set 0 "attr" JNull bound_inputs = Returned true st').
Proof.
  split; [reflexivity|]. split; [reflexivity|].
  apply (attr_assignment_throws_on_nullish bound_inputs 0 bound_node [0; 1] JNull);
    reflexivity.
Defined.

(** X6: while [DOM] is the array of the node, an [attr] value without
    own pairs (a number, a boolean, the empty object, the empty string)
    is stored in the node and changes nothing in the document. *)
Theorem attr_assignment_without_pairs
    (st : State) (n : NodeRef) (node : Node) (l : list ElemRef) (v : JsValue) :
  nodes st !! n = Some node ->
  DOM node = JElems l ->
  Object_entries v = inr [] ->
  node_set n "attr" v st = Returned true (with_nodes (alter (set_attr v) n) st).
Proof.
  intros Hn Hdom Hv. rewrite (node_set_attr_spec n node l v [] st Hn Hdom Hv). f_equal.
  apply State_eq; simpl; try reflexivity.
  apply (foldl_alter_id l).
Qed.

Lemma attr_assignment_without_pairs_witness :
  nodes bound_inputs !! 0 = Some bound_node /\
  DOM bound_node = JElems [0; 1] /\
  Object_entries (JNum 5) = inr [] /\
  node_set 0 "attr" (JNum 5) bound_inputs
  = Returned true (with_nodes (alter (set_attr (JNum 5)) 0) bound_inputs).
Proof.
  split; [reflexivity|]. split; [reflexivity|]. split; [reflexivity|].
  apply (attr_assignment_without_pairs bound_inputs 0 bound_node [0; 1] (JNum 5));
    reflexivity.
Defined.

(** X7: what is assigned to a property of a node is what reading that
    property returns, also when the assignment throws.  This holds for
    every property name, [DOM] included, other than [$] (always the
    binder) and [__proto__] (whose assignment sets the prototype
    instead). *)
Theorem assigned_property_is_read_back
    (st : State) (n : NodeRef) (node : Node) (prop : string) (v : JsValue) :
  nodes st !! n = Some node ->
  prop <> "$" -> prop <> "__proto__" ->
  node_get n prop (final_state (node_set n prop v st)) = GData v.
Proof.
  intros Hn Hdollar _. unfold node_get.
  rewrite (proj2 (String.eqb_neq prop "$") Hdollar).
  destruct (String.eqb_spec prop "value") as [->|Hvalue].
  - rewrite (node_set_value_final n node v st Hn). simpl.
    by rewrite lookup_alter_eq, Hn.
  - destruct (String.eqb_spec prop "attr") as [->|Hattr].
    + rewrite (node_set_attr_final n node v st Hn). simpl.
      by rewrite lookup_alter_eq, Hn.
    + unfold node_set.
      rewrite (proj2 (String.eqb_neq prop "value") Hvalue),
              (proj2 (String.eqb_neq prop "attr") Hattr).
      simpl. rewrite lookup_alter_eq, Hn. simpl. unfold target_get, target_set.
      rewrite (proj2 (String.eqb_neq prop "value") Hvalue),
              (proj2 (String.eqb_neq prop "attr") Hattr).
      destruct (String.eqb prop "DOM"); simpl; [reflexivity|].
      by rewrite lookup_insert_eq.
Qed.

Lemma assigned_property_is_read_back_witness :
  nodes bound_inputs !! 0 = Some bound_node /\
  "label" <> "$" /\ "label" <> "__proto__" /\
  node_get 0 "label" (final_state (node_set 0 "label" (JStr "x") bound_inputs))
  = GData (JStr "x").
Proof.
  assert (H1 : "label" <> "$") by discriminate.
  assert (H3 : "label" <> "__proto__") by discriminate.
  split; [reflexivity|]. split; [exact H1|]. split; [exact H3|].
  apply (assigned_property_is_read_back bound_inputs 0 bound_node "label" (JStr "x"));
    [reflexivity|exact H1|exact H3].
Defined.

(** An assignment through the set trap leaves the other nodes alone. *)
Section OtherNodes.
Variable n : NodeRef.

Lemma other_nodes_kept_refl (st : State) : other_nodes_kept n st st.
Proof. by intros k Hk. Qed.

Lemma other_nodes_kept_trans (st1 st2 st3 : State) :
  other_nodes_kept n st1 st2 -> other_nodes_kept n st2 st3 ->
  other_nodes_kept n st1 st3.
Proof. intros H12 H23 k Hk. by rewrite H23, H12. Qed.

Lemma target_update_other_nodes (f : Node -> Node) :
  preserves (other_nodes_kept n) (target_update n f).
Proof.
  apply preserves_modify. intros st k Hk. simpl. by rewrite lookup_alter_ne.
Qed.

Lemma element_update_other_nodes (e : ElemRef) (f : Element -> Element) :
  preserves (other_nodes_kept n) (element_update e f).
Proof. apply preserves_modify. by intros st k Hk. Qed.

Lemma node_set_other_nodes (prop : string) (v : JsValue) :
  preserves (other_nodes_kept n) (node_set n prop v).
Proof.
  unfold node_set.
  destruct (String.eqb prop "value"); [|destruct (String.eqb prop "attr")];
    step_preserves other_nodes_kept_refl other_nodes_kept_trans;
    try apply target_update_other_nodes.
  - intros st. unfold updateDOMValues.
    destruct (nodes st !! n) as [node|]; [|apply other_nodes_kept_refl].
    revert st. step_preserves other_nodes_kept_refl other_nodes_kept_trans.
    apply element_update_other_nodes.
  - intros st. unfold updateDOMAttributes.
    destruct (nodes st !! n) as [node|]; [|apply other_nodes_kept_refl].
    revert st. step_preserves other_nodes_kept_refl other_nodes_kept_trans.
    destruct (Object_entries (attr node));
      step_preserves other_nodes_kept_refl other_nodes_kept_trans.
    apply element_update_other_nodes.
Qed.
End OtherNodes.

Lemma node_set_other_property (n : NodeRef) (prop : string) (v : JsValue)
    (st : State) :
  prop <> "value" -> prop <> "attr" ->
  node_set n prop v st = Returned true (with_nodes (alter (target_set prop v) n) st).
Proof.
  intros Hvalue Hattr. unfold node_set.
  by rewrite (proj2 (String.eqb_neq prop "value") Hvalue),
             (proj2 (String.eqb_neq prop "attr") Hattr).
Qed.

(** X8: what an assignment to a property of a node never does, whether
    it returns or throws: it changes no other node and not the root;
    unless the property is [DOM] it changes the [DOM] property of no
    node; unless the property is [value] or [attr] it changes nothing in
    the document; and [$] still reads as the binder of the node, even
    when [$] itself was assigned. *)
Theorem assignment_frame (st : State) (n : NodeRef) (prop : string) (v : JsValue) :
  let st' := final_state (node_set n prop v st) in
  (forall k, k <> n -> nodes st' !! k = nodes st !! k) /\
  root st' = root st /\
  (prop <> "DOM" -> forall k, DOM <$> nodes st' !! k = DOM <$> nodes st !! k) /\
  (prop <> "value" -> prop <> "attr" -> doc_elements st' = doc_elements st) /\
  node_get n "$" st' = GBinder (mkBinder PlainObject n).
Proof.
  intros st'. subst st'. split_and!.
  - apply (node_set_other_nodes n prop v st).
  - apply (node_set_same_root n prop v st).
  - intros Hdom. by destruct (node_set_same n prop v Hdom st) as (_ & H & _).
  - intros Hvalue Hattr. by rewrite node_set_other_property.
  - reflexivity.
Qed.

(** ** bindDOM (FX.js lines 47-62) *)

Lemma filter_unbound_snoc (seen elems : list ElemRef) (x : ElemRef) :
  x ∉ elems ->
  filter (fun e => e ∉ seen ++ [x]) elems = filter (fun e => e ∉ seen) elems.
Proof.
  induction elems as [|e elems IH]; intros Hx; [reflexivity|].
  apply not_elem_of_cons in Hx as [Hne Hx].
  destruct (decide (e ∈ seen)) as [Hin|Hnot].
  - rewrite !filter_cons_False; [by apply IH| |].
    + intros H. by apply H.
    + intros H. apply H, elem_of_app. by left.
  - rewrite !filter_cons_True; [by rewrite IH|done|].
    intros [H|H%list_elem_of_singleton]%elem_of_app; [done|congruence].
Qed.

Lemma bind_steps_order (n : NodeRef) (node : Node) (l : list ElemRef)
    (elems : list ElemRef) (st : State) :
  nodes st !! n = Some node -> DOM node = JElems l -> NoDup elems ->
  nodes (foldl (fun s e => bind_step n e s) st elems) !! n
  = Some (mkNode (value node) (attr node)
                 (JElems (l ++ filter (fun e => e ∉ l) elems)) (extra node)).
Proof.
  revert node l st.
  induction elems as [|x elems IH]; intros node l st Hn Hdom Hnd; simpl.
  - rewrite filter_nil, app_nil_r. rewrite Hn, <- Hdom. by destruct node.
  - apply NoDup_cons in Hnd as [Hx Hnd].
    pose proof (bind_step_array n node l x st Hn Hdom) as Hstep.
    destruct (decide (x ∈ l)) as [Hin|Hin].
    + rewrite bool_decide_eq_true_2 in Hstep by done.
      rewrite filter_cons_False by (intros H; by apply H).
      by rewrite (IH _ l _ Hstep eq_refl Hnd).
    + rewrite bool_decide_eq_false_2 in Hstep by done.
      rewrite filter_cons_True by done.
      rewrite (IH _ (l ++ [x]) _ Hstep eq_refl Hnd). simpl.
      rewrite filter_unbound_snoc by done.
      by rewrite <- app_assoc.
Qed.

Lemma bind_step_other_nodes (n : NodeRef) (e : ElemRef) (st : State) :
  other_nodes_kept n st (bind_step n e st).
Proof.
  intros k Hk. unfold bind_step. destruct (nodes st !! n) as [node|]; [|done].
  destruct (DOM node); try done.
  case_bool_decide; [done|]. simpl. by rewrite lookup_alter_ne.
Qed.

Lemma bind_steps_other_nodes (n : NodeRef) (elems : list ElemRef) (st : State) :
  other_nodes_kept n st (foldl (fun s e => bind_step n e s) st elems).
Proof.
  revert st. induction elems as [|e elems IH]; intros st; simpl.
  - apply other_nodes_kept_refl.
  - eapply other_nodes_kept_trans; [apply bind_step_other_nodes|apply IH].
Qed.

(** X9: while [DOM] is the array of the node, binding appends to it, in
    document order, exactly the matched elements that were not yet in
    it; the node's [value] and [attr] are not touched, and neither is
    any other node or the root. *)
Theorem bindDOM_appends_new_matches_in_order
    (st : State) (selector : string) (n : NodeRef) (node : Node)
    (l elems : list ElemRef) :
  nodes st !! n = Some node ->
  DOM node = JElems l ->
  querySelectorAll st selector = inr elems ->
  NoDup elems ->
  exists st',
    bindDOM selector n st = Returned n st' /\
    nodes st' !! n
      = Some (mkNode (value node) (attr node)
                     (JElems (l ++ filter (fun e => e ∉ l) elems))
                     (extra node)) /\
    (forall k, k <> n -> nodes st' !! k = nodes st !! k) /\
    root st' = root st.
Proof.
  intros Hn Hdom Hq Hnd. eexists.
  split; [rewrite (bindDOM_spec selector n node l st Hn Hdom), Hq; reflexivity|].
  split_and!.
  - by apply bind_steps_order.
  - apply bind_steps_other_nodes.
  - apply bind_steps_root.
Qed.

Lemma bindDOM_appends_new_matches_in_order_witness :
  nodes first_bound !! 0 = Some first_node /\
  DOM first_node = JElems [1] /\
  querySelectorAll first_bound "input" = inr [0; 1] /\
  NoDup [0; 1] /\
  exists st',
    bindDOM "input" 0 first_bound = Returned 0 st' /\
    nodes st' !! 0
      = Some (mkNode (value first_node) (attr first_node)
                     (JElems ([1] ++ filter (fun e => e ∉ [1]) [0; 1]))
                     (extra first_node)) /\
    (forall k, k <> 0 -> nodes st' !! k = nodes first_bound !! k) /\
    root st' = root first_bound.
Proof.
  assert (Hnd : NoDup [0; 1]) by (apply (bool_decide_unpack _); vm_compute; exact I).
  split; [reflexivity|]. split; [reflexivity|]. split; [reflexivity|].
  split; [exact Hnd|].
  apply (bindDOM_appends_new_matches_in_order first_bound "input" 0 first_node
           [1] [0; 1]); [reflexivity|reflexivity|reflexivity|exact Hnd].
Defined.

Lemma bind_step_elements (n : NodeRef) (node : Node) (l : list ElemRef)
    (x : ElemRef) (st : State) :
  nodes st !! n = Some node -> DOM node = JElems l ->
  doc_elements (bind_step n x st)
  = if bool_decide (x ∈ l) then doc_elements st
    else alter (listen n) x (doc_elements st).
Proof.
  intros Hn Hdom. unfold bind_step. rewrite Hn, Hdom.
  case_bool_decide; reflexivity.
Qed.

Lemma bind_steps_elements (n : NodeRef) (node : Node) (l : list ElemRef)
    (elems : list ElemRef) (st : State) (e : ElemRef) :
  nodes st !! n = Some node -> DOM node = JElems l ->
  doc_elements (foldl (fun s x => bind_step n x s) st elems) !! e
  = if bool_decide (e ∈ elems /\ e ∉ l)
    then listen n <$> doc_elements st !! e
    else doc_elements st !! e.
Proof.
  revert node l st.
  induction elems as [|x elems IH]; intros node l st Hn Hdom; cbn [foldl].
  - rewrite bool_decide_eq_false_2; [done|]. intros [H _]. by apply elem_of_nil in H.
  - pose proof (bind_step_array n node l x st Hn Hdom) as Hstep.
    pose proof (bind_step_elements n node l x st Hn Hdom) as Hdoc.
    destruct (decide (x ∈ l)) as [Hin|Hin].
    + rewrite bool_decide_eq_true_2 in Hstep, Hdoc by done.
      rewrite (IH _ l _ Hstep eq_refl), Hdoc.
      rewrite (bool_decide_ext (e ∈ elems /\ e ∉ l) (e ∈ x :: elems /\ e ∉ l));
        [done|].
      rewrite elem_of_cons. split; [intros [? ?]; by split; [right|]|].
      intros [[->|?] ?]; done.
    + rewrite bool_decide_eq_false_2 in Hstep, Hdoc by done.
      rewrite (IH _ (l ++ [x]) _ Hstep eq_refl), Hdoc.
      destruct (decide (x = e)) as [->|Hne].
      * rewrite lookup_alter_eq.
        rewrite (bool_decide_eq_false_2 (e ∈ elems /\ e ∉ l ++ [e])).
        -- rewrite bool_decide_eq_true_2; [done|]. split; [by left|done].
        -- intros [_ H]. apply H, elem_of_app. right. by left.
      * rewrite lookup_alter_ne by done.
        rewrite (bool_decide_ext (e ∈ elems /\ e ∉ l ++ [x])
                                 (e ∈ x :: elems /\ e ∉ l)); [done|].
        rewrite elem_of_cons, elem_of_app, list_elem_of_singleton.
        split; [intros [? ?]|intros [[?|?] ?]]; split; auto; try congruence.
        intros [?|?]; [done|congruence].
Qed.

(** X10: while [DOM] is the array of the node, binding changes the
    document only by registering listeners: every matched element that
    was not yet bound to the node gets exactly one listener appended,
    for its inferred event and this node; every other element, bound
    already or not matched, is left exactly as it was.  In particular no
    channel content and no attribute changes: binding does not push the
    node's current value into the elements. *)
Theorem bindDOM_only_registers_listeners
    (st : State) (selector : string) (n : NodeRef) (node : Node)
    (l elems : list ElemRef) :
  nodes st !! n = Some node ->
  DOM node = JElems l ->
  querySelectorAll st selector = inr elems ->
  exists st',
    bindDOM selector n st = Returned n st' /\
    forall e,
      doc_elements st' !! e
      = if bool_decide (e ∈ elems /\ e ∉ l)
        then (fun element =>
                add_listener element (mkListener (inferEventType element) n))
               <$> doc_elements st !! e
        else doc_elements st !! e.
Proof.
  intros Hn Hdom Hq. eexists.
  split; [rewrite (bindDOM_spec selector n node l st Hn Hdom), Hq; reflexivity|].
  intros e. by apply (bind_steps_elements n node l).
Qed.

Lemma bindDOM_only_registers_listeners_witness :
  nodes first_bound !! 0 = Some first_node /\
  DOM first_node = JElems [1] /\
  querySelectorAll first_bound "input" = inr [0; 1] /\
  exists st',
    bindDOM "input" 0 first_bound = Returned 0 st' /\
    forall e,
      doc_elements st' !! e
      = if bool_decide (e ∈ [0; 1] /\ e ∉ [1])
        then (fun element =>
                add_listener element (mkListener (inferEventType element) 0))
               <$> doc_elements first_bound !! e
        else doc_elements first_bound !! e.
Proof.
  split; [reflexivity|]. split; [reflexivity|]. split; [reflexivity|].
  apply (bindDOM_only_registers_listeners first_bound "input" 0 first_node
           [1] [0; 1]); reflexivity.
Defined.

(** X11: binding is all or nothing.  When [bindDOM] returns, it returns
    the node it was given.  When it throws, the store is as it was, and
    the error is either the one the document raised for the selector or
    a TypeError raised by the loop because the [DOM] property of the
    node, replaced by the caller, is not an array any more. *)
Theorem bindDOM_throws_leave_the_store
    (st : State) (selector : string) (n : NodeRef) :
  match bindDOM selector n st with
  | Thrown err st' =>
      st' = st /\
      (querySelectorAll st selector = inl err
       \/ (err = TypeError /\
           (exists elems, querySelectorAll st selector = inr elems) /\
           exists node, nodes st !! n = Some node /\ forall l, DOM node <> JElems l))
  | Returned r st' =>
      r = n /\
      exists elems,
        querySelectorAll st selector = inr elems /\
        st' = foldl (fun s e => bind_step n e s) st elems
  end.
Proof.
  unfold bindDOM.
  destruct (querySelectorAll st selector) as [err|elems]; [by split; [|left]|].
  unfold bind.
  destruct (bind_loop_outcome n elems st) as [->|[-> Hnode]]; simpl.
  - split; [reflexivity|]. by exists elems.
  - split; [reflexivity|]. right. split_and!; [reflexivity|by exists elems|exact Hnode].
Qed.

(** ** Events (FX.js lines 53-57) *)

Lemma listening_nodes (ls : list Listener) (eventType : string) (k : NodeRef) :
  k ∈ l_node <$> filter (fun l => l_event l = eventType) ls
  <-> mkListener eventType k ∈ ls.
Proof.
  rewrite list_elem_of_fmap. split.
  - intros ([ev k'] & -> & [Hev Hin]%list_elem_of_filter). simpl in *. by subst.
  - intros Hin. exists (mkListener eventType k). split; [done|].
    by apply list_elem_of_filter.
Qed.

(** X12: an event fired at an element reaches exactly the nodes that
    have a listener for that event on the element: each of them gets the
    element's current channel value as its [value], every other node is
    unchanged, and so are the document and the root. *)
Theorem event_reaches_exactly_the_listening_nodes
    (st : State) (e : ElemRef) (element : Element) (eventType : string) :
  doc_elements st !! e = Some element ->
  exists st',
    dispatchEvent e eventType st = Returned tt st' /\
    doc_elements st' = doc_elements st /\
    root st' = root st /\
    forall k,
      nodes st' !! k
      = if bool_decide (mkListener eventType k ∈ listeners element)
        then set_value (getElementValue element) <$> nodes st !! k
        else nodes st !! k.
Proof.
  intros He. eexists. split; [by apply dispatchEvent_spec|].
  split_and!; [reflexivity..|]. intros k. simpl.
  rewrite (foldl_alter_lookup _ _ _ _ (set_value_idem (getElementValue element))).
  by rewrite (bool_decide_ext _ _ (listening_nodes (listeners element) eventType k)).
Qed.

Lemma event_reaches_exactly_the_listening_nodes_witness :
  doc_elements typed_input !! 0 = Some typed_first /\
  exists st',
    dispatchEvent 0 "input" typed_input = Returned tt st' /\
    doc_elements st' = doc_elements typed_input /\
    root st' = root typed_input /\
    forall k,
      nodes st' !! k
      = if bool_decide (mkListener "input" k ∈ listeners typed_first)
        then set_value (getElementValue typed_first) <$> nodes typed_input !! k
        else nodes typed_input !! k.
Proof.
  split; [reflexivity|].
  apply (event_reaches_exactly_the_listening_nodes typed_input 0 typed_first "input").
  reflexivity.
Defined.

Lemma no_listener_for_event (ls : list Listener) (eventType : string) :
  (forall l, l ∈ ls -> l_event l <> eventType) ->
  filter (fun l => l_event l = eventType) ls = [].
Proof.
  induction ls as [|l ls IH]; intros Hnone; [reflexivity|].
  rewrite filter_cons_False by (apply Hnone; by left).
  apply IH. intros l' Hl'. apply Hnone. by right.
Qed.

Lemma only_inferred_shapes (st st' : State) :
  (forall e, shape <$> doc_elements st' !! e = shape <$> doc_elements st !! e) ->
  only_inferred st -> only_inferred st'.
Proof.
  intros He Hinv e element' l Helem' Hin.
  specialize (He e). rewrite Helem' in He.
  destruct (doc_elements st !! e) as [element|] eqn:Helem; [|done].
  assert (Hshape : shape element' = shape element) by (simpl in He; congruence).
  rewrite (inferEventType_shape _ _ Hshape).
  assert (Hls : listeners element' = listeners element)
    by (unfold shape in Hshape; congruence).
  rewrite Hls in Hin. by eapply Hinv.
Qed.

Lemma only_inferred_bind_step (n : NodeRef) (e : ElemRef) (st : State) :
  only_inferred st -> only_inferred (bind_step n e st).
Proof.
  intros Hinv. unfold bind_step.
  destruct (nodes st !! n) as [node|]; [|done].
  destruct (DOM node); try done.
  case_bool_decide; [done|].
  intros e0 element0 l0. simpl. destruct (decide (e = e0)) as [<-|Hne].
  - rewrite lookup_alter_eq.
    destruct (doc_elements st !! e) as [element|] eqn:Helem; [|done].
    intros [= <-]. simpl.
    change (inferEventType (listen n element)) with (inferEventType element).
    intros [Hin|Hin%list_elem_of_singleton]%elem_of_app.
    + by eapply Hinv.
    + by subst.
  - rewrite lookup_alter_ne by done. apply Hinv.
Qed.

(** Whatever a caller, the host or the user does, the listeners on an
    element stay those for its inferred event. *)
Lemma only_inferred_perform (a : Action) (st : State) :
  only_inferred st -> only_inferred (perform a st).
Proof.
  intros Hinv. destruct a as [q|q r|k sel|k args|k prop v|e eventType|e name v]; simpl.
  - rewrite fx_get_spec. by destruct (root_truthy (target_lookup (root st) q)).
  - done.
  - change (dollar_dot k sel st) with (bindDOM sel k st). rewrite bindDOM_final.
    destruct (querySelectorAll st sel) as [err|elems]; [done|].
    revert st Hinv. induction elems as [|x elems IH]; intros st Hinv; simpl; [done|].
    by apply IH, only_inferred_bind_step.
  - done.
  - destruct (String.eqb_spec prop "DOM") as [->|Hdom]; [done|].
    eapply only_inferred_shapes; [|done].
    by destruct (node_set_same k prop v Hdom st) as (_ & _ & H).
  - eapply only_inferred_shapes; [|done].
    by destruct (dispatchEvent_same e eventType st) as (_ & _ & H).
  - eapply only_inferred_shapes; [|done].
    by destruct (host_write_same e name v st) as (_ & _ & H).
Qed.

(** X13: the only event the program ever listens for on an element is
    the one [inferEventType] gives for it.  Start from a document none
    of whose elements has a listener; whatever the caller, the host and
    the user then do, every listener on an element is for the element's
    inferred event, so any other event fired at it ([change] on a text
    input, [input] on a select) returns with the store unchanged.  (The
    host is modelled without reflection of attributes into properties:
    the tag and the [type] property of an element never change.) *)
Theorem only_the_inferred_event_is_heard
    (st0 : State) (actions : list Action) (e : ElemRef) (element : Element)
    (eventType : string) :
  map_Forall (fun _ element0 => listeners element0 = []) (doc_elements st0) ->
  let st := foldl (fun s a => perform a s) st0 actions in
  doc_elements st !! e = Some element ->
  (forall l, l ∈ listeners element -> l_event l = inferEventType element) /\
  (eventType <> inferEventType element ->
   dispatchEvent e eventType st = Returned tt st).
Proof.
  intros Hnone st He.
  assert (Hinv : only_inferred st).
  { subst st. clear He. induction actions as [|a actions IH] using rev_ind; simpl.
    - intros e0 element0 l Helem Hin. rewrite (Hnone e0 element0 Helem) in Hin.
      by apply elem_of_nil in Hin.
    - rewrite foldl_app. simpl. by apply only_inferred_perform. }
  split.
  - intros l Hl. by eapply Hinv.
  - intros Hother. unfold dispatchEvent. rewrite He.
    rewrite no_listener_for_event; [reflexivity|].
    intros l Hl Heq. apply Hother. rewrite <- Heq. by eapply Hinv.
Qed.

Lemma only_the_inferred_event_is_heard_witness :
  map_Forall (fun _ element0 => listeners element0 = []) (doc_elements two_inputs) /\
  let st :=
    foldl (fun s a => perform a s) two_inputs
      [ReadRoot "name"; SelectDot 0 "input"; Edit 0 "value" (JStr "typed")] in
  doc_elements st !! 0 = Some typed_first /\
  (forall l, l ∈ listeners typed_first -> l_event l = inferEventType typed_first) /\
  ("change" <> inferEventType typed_first ->
   dispatchEvent 0 "change" st = Returned tt st).
Proof.
  assert (H : map_Forall (fun _ element0 => listeners element0 = [])
                (doc_elements two_inputs)).
  { apply map_Forall_insert_2; [reflexivity|].
    apply map_Forall_insert_2; [reflexivity|]. apply map_Forall_empty. }
  split; [exact H|]. split; [reflexivity|].
  apply (only_the_inferred_event_is_heard two_inputs
           [ReadRoot "name"; SelectDot 0 "input"; Edit 0 "value" (JStr "typed")]
           0 typed_first "change"); [exact H|reflexivity].
Defined.

(** X14: pushing then pulling gives the value back: in a store the
    program built (the [DOM] arrays being left to [bindDOM]), after
    [value] was assigned [v], the event of any bound element stores [v]
    in the node again and changes nothing in the document.  (The push is
    the write [updateDOM], as modelled, makes.) *)
Theorem pushed_value_is_pulled_back
    (st : State) (n : NodeRef) (node : Node) (l : list ElemRef)
    (e : ElemRef) (element : Element) (v : JsValue) :
  reachable st ->
  nodes st !! n = Some node ->
  DOM node = JElems l ->
  e ∈ l ->
  doc_elements st !! e = Some element ->
  let st1 := final_state (node_set n "value" v st) in
  exists st2,
    dispatchEvent e (inferEventType element) st1 = Returned tt st2 /\
    nodes st2 !! n = Some (set_value v node) /\
    nodes st2 !! n = nodes st1 !! n /\
    doc_elements st2 = doc_elements st1.
Proof.
  intros Hreach Hn Hdom Hin He st1.
  assert (Hvalue : "value" <> "DOM") by discriminate.
  assert (Hinv : invariant st1).
  { eapply invariant_same; [apply (node_set_same n "value" v Hvalue st)|].
    by apply reachable_invariant. }
  assert (Hn1 : nodes st1 !! n = Some (set_value v node)).
  { subst st1. rewrite (node_set_value_final n node v st Hn). simpl.
    by rewrite lookup_alter_eq, Hn. }
  assert (He1 : doc_elements st1 !! e = Some (push_value v element)).
  { subst st1. rewrite (node_set_value_final n node v st Hn). simpl.
    rewrite (bound_array node l Hdom).
    rewrite (foldl_alter_lookup _ _ _ _ (push_value_idem v)).
    by rewrite bool_decide_eq_true_2, He. }
  destruct Hinv as (_ & _ & Hl).
  pose proof (Hl n _ l e _ Hn1 Hdom Hin He1) as Hlistener.
  assert (Hev : inferEventType (push_value v element) = inferEventType element)
    by apply inferEventType_write_prop.
  rewrite Hev in Hlistener.
  destruct (listener_stores_element_value st1 n (set_value v node) e
              (push_value v element) Hn1 He1)
    as (st2 & Hrun & Hn2 & _ & Hdoc); [by rewrite Hev|].
  rewrite Hev, getElementValue_push_value in *.
  exists st2. split_and!; [done|done| |done].
  by rewrite Hn1, Hn2.
Qed.

Lemma pushed_value_is_pulled_back_witness :
  reachable bound_inputs /\
  nodes bound_inputs !! 0 = Some bound_node /\
  DOM bound_node = JElems [0; 1] /\
  1 ∈ [0; 1] /\
  doc_elements bound_inputs !! 1 = Some untouched_second /\
  let st1 := final_state (node_set 0 "value" (JStr "a") bound_inputs) in
  exists st2,
    dispatchEvent 1 (inferEventType untouched_second) st1 = Returned tt st2 /\
    nodes st2 !! 0 = Some (set_value (JStr "a") bound_node) /\
    nodes st2 !! 0 = nodes st1 !! 0 /\
    doc_elements st2 = doc_elements st1.
Proof.
  assert (Hreach : reachable bound_inputs).
  { apply (reachable_step _ (SelectDot 0 "input")); [reflexivity|].
    apply (reachable_step _ (ReadRoot "name")); [reflexivity|].
    apply reachable_initial; reflexivity. }
  assert (Hin : 1 ∈ [0; 1])
    by (apply (bool_decide_unpack _); vm_compute; exact I).
  split; [exact Hreach|]. split; [reflexivity|]. split; [reflexivity|].
  split; [exact Hin|]. split; [reflexivity|].
  apply (pushed_value_is_pulled_back bound_inputs 0 bound_node [0; 1] 1
           untouched_second (JStr "a"));
    [exact Hreach|reflexivity|reflexivity|exact Hin|reflexivity].
Defined.

(** ** The root object (FX.js lines 107-114) *)

(** X15: reading any name from the root twice in a row returns the
    same thing both times, and the second read changes nothing.  A read
    never touches the document, any existing node, or what the root
    holds under other names. *)
Theorem root_read_is_idempotent (st : State) (p : string) :
  exists r st',
    fx_get p st = Returned r st' /\
    fx_get p st' = Returned r st' /\
    doc_elements st' = doc_elements st /\
    querySelectorAll st' = querySelectorAll st /\
    (forall k node, nodes st !! k = Some node -> nodes st' !! k = Some node) /\
    (forall q, q <> p -> root st' !! q = root st !! q).
Proof.
  rewrite fx_get_spec.
  destruct (root_truthy (target_lookup (root st) p)) eqn:Htruthy.
  - eexists _, st. split; [reflexivity|].
    split; [by rewrite fx_get_spec, Htruthy|]. by split_and!.
  - pose proof (fresh_node_unused st) as Hfresh.
    set (n := fresh (dom (nodes st))) in *.
    eexists _, _. split; [reflexivity|]. split_and!; try reflexivity.
    + apply fx_get_stored. simpl. apply lookup_insert_eq.
    + intros k node Hk. simpl. rewrite lookup_insert_ne; [done|]. congruence.
    + intros q Hq. simpl. by rewrite lookup_insert_ne.
Qed.

(** X16: two different names that both need a node get two different
    nodes, each new and empty; neither read disturbs the other name. *)
Theorem distinct_names_get_distinct_nodes (st : State) (p q : string) :
  p <> q ->
  root_truthy (target_lookup (root st) p) = false ->
  root_truthy (target_lookup (root st) q) = false ->
  exists n1 n2 st1 st2,
    fx_get p st = Returned (RNode n1) st1 /\
    fx_get q st1 = Returned (RNode n2) st2 /\
    n1 <> n2 /\
    nodes st !! n1 = None /\ nodes st !! n2 = None /\
    nodes st2 !! n1 = Some empty_node /\
    nodes st2 !! n2 = Some empty_node /\
    root st2 !! p = Some (RNode n1) /\
    root st2 !! q = Some (RNode n2).
Proof.
  intros Hpq Hp Hq.
  pose proof (fresh_node_unused st) as Hfresh1.
  set (n1 := fresh (dom (nodes st))) in *.
  set (st1 := with_root (<[p := RNode n1]>)
                (with_nodes (<[n1 := empty_node]>) st)).
  pose proof (fresh_node_unused st1) as Hfresh2.
  set (n2 := fresh (dom (nodes st1))) in *.
  assert (Hne : n1 <> n2).
  { intros Heq. rewrite <- Heq in Hfresh2. simpl in Hfresh2.
    by rewrite lookup_insert_eq in Hfresh2. }
  assert (Hq1 : root_truthy (target_lookup (root st1) q) = false).
  { unfold target_lookup in *. simpl. by rewrite lookup_insert_ne. }
  exists n1, n2, st1,
    (with_root (<[q := RNode n2]>)
       (with_nodes (<[n2 := empty_node]>) st1)).
  split; [by rewrite fx_get_spec, Hp|].
  split; [by rewrite fx_get_spec, Hq1|].
  split_and!; [exact Hne|exact Hfresh1|..].
  - simpl in Hfresh2. by rewrite lookup_insert_ne in Hfresh2.
  - simpl. rewrite lookup_insert_ne by done. apply lookup_insert_eq.
  - simpl. apply lookup_insert_eq.
  - simpl. rewrite lookup_insert_ne by done. apply lookup_insert_eq.
  - simpl. apply lookup_insert_eq.
Qed.

Lemma distinct_names_get_distinct_nodes_witness :
  "user" <> "items" /\
  root_truthy (target_lookup (root two_inputs) "user") = false /\
  root_truthy (target_lookup (root two_inputs) "items") = false /\
  exists n1 n2 st1 st2,
    fx_get "user" two_inputs = Returned (RNode n1) st1 /\
    fx_get "items" st1 = Returned (RNode n2) st2 /\
    n1 <> n2 /\
    nodes two_inputs !! n1 = None /\ nodes two_inputs !! n2 = None /\
    nodes st2 !! n1 = Some empty_node /\
    nodes st2 !! n2 = Some empty_node /\
    root st2 !! "user" = Some (RNode n1) /\
    root st2 !! "items" = Some (RNode n2).
Proof.
  assert (H : "user" <> "items") by discriminate.
  split; [exact H|]. split; [reflexivity|]. split; [reflexivity|].
  apply (distinct_names_get_distinct_nodes two_inputs "user" "items");
    [exact H|reflexivity|reflexivity].
Defined.

(** X17: a value a caller stores on the root directly decides the next
    read of that name: a truthy value (an object, a node, a non-empty
    string, a non-zero number) is returned as it is and no node is
    created; a falsy one ([null], [undefined], [false], [0], the empty
    string) is replaced by a new empty node, which is what the read
    returns. *)
Theorem root_assignment_then_read (st : State) (p : string) (r : RootVal) :
  p <> "__proto__" ->
  let st1 := final_state (fx_assign p r st) in
  (root_truthy r = true -> fx_get p st1 = Returned r st1) /\
  (root_truthy r = false ->
   exists n st2,
     fx_get p st1 = Returned (RNode n) st2 /\
     nodes st1 !! n = None /\
     nodes st2 !! n = Some empty_node /\
     root st2 !! p = Some (RNode n)).
Proof.
  intros _ st1. subst st1. simpl.
  assert (Hlook : target_lookup (<[p := r]> (root st)) p = r)
    by (unfold target_lookup; by rewrite lookup_insert_eq).
  split; intros Hr; rewrite fx_get_spec; simpl; rewrite Hlook, Hr.
  - reflexivity.
  - eexists _, _. split; [reflexivity|]. split_and!.
    + apply (fresh_node_unused (with_root (<[p := r]>) st)).
    + simpl. apply lookup_insert_eq.
    + simpl. apply lookup_insert_eq.
Qed.

Lemma root_assignment_then_read_witness :
  "get" <> "__proto__" /\
  let st1 := final_state (fx_assign "get" (RData (JNum 0)) two_inputs) in
  (root_truthy (RData (JNum 0)) = true ->
   fx_get "get" st1 = Returned (RData (JNum 0)) st1) /\
  (root_truthy (RData (JNum 0)) = false ->
   exists n st2,
     fx_get "get" st1 = Returned (RNode n) st2 /\
     nodes st1 !! n = None /\
     nodes st2 !! n = Some empty_node /\
     root st2 !! "get" = Some (RNode n)).
Proof.
  assert (H : "get" <> "__proto__") by discriminate.
  split; [exact H|].
  apply (root_assignment_then_read two_inputs "get" (RData (JNum 0))). exact H.
Defined.

(** ** Invariant of the stores the program builds *)

(** X18: in every store the program builds (the [DOM] arrays being
    left to [bindDOM]), every element in a node's bound-element list
    carries a listener registered for that node under the event inferred
    for the element. *)
Theorem bound_elements_are_listened_to
    (st : State) (n : NodeRef) (node : Node) (l : list ElemRef)
    (e : ElemRef) (element : Element) :
  reachable st ->
  nodes st !! n = Some node ->
  DOM node = JElems l ->
  e ∈ l ->
  doc_elements st !! e = Some element ->
  mkListener (inferEventType element) n ∈ listeners element.
Proof.
  intros Hreach Hn Hdom Hin He.
  destruct (reachable_invariant st Hreach) as (_ & _ & Hl). by eapply Hl.
Qed.

Lemma bound_elements_are_listened_to_witness :
  reachable typed_input /\
  nodes typed_input !! 0 = Some bound_node /\
  DOM bound_node = JElems [0; 1] /\
  0 ∈ [0; 1] /\
  doc_elements typed_input !! 0 = Some typed_first /\
  mkListener (inferEventType typed_first) 0 ∈ listeners typed_first.
Proof.
  assert (Hreach : reachable typed_input).
  { apply (reachable_step _ (Edit 0 "value" (JStr "typed"))); [reflexivity|].
    apply (reachable_step _ (SelectDot 0 "input")); [reflexivity|].
    apply (reachable_step _ (ReadRoot "name")); [reflexivity|].
    apply reachable_initial; reflexivity. }
  assert (Hin : 0 ∈ [0; 1])
    by (apply (bool_decide_unpack _); vm_compute; exact I).
  split; [exact Hreach|]. split; [reflexivity|]. split; [reflexivity|].
  split; [exact Hin|]. split; [reflexivity|].
  apply (bound_elements_are_listened_to typed_input 0 bound_node [0; 1] 0
           typed_first); [exact Hreach|reflexivity|reflexivity|exact Hin|reflexivity].
Defined.

(** X19: nodes are created one level deep only: the node a root read
    has just created has no property besides [value], [attr], [DOM] and
    [$], so reading any other name off it (that is not inherited from
    [Object.prototype]) gives [undefined] rather than a child node. *)
Theorem new_node_has_no_children (st : State) (p q : string) :
  root_truthy (target_lookup (root st) p) = false ->
  q <> "$" -> q <> "value" -> q <> "attr" -> q <> "DOM" -> inherited q = false ->
  exists n st',
    fx_get p st = Returned (RNode n) st' /\
    node_get n q st' = GData JUndefined.
Proof.
  intros Hp Hdollar Hvalue Hattr Hdom Hinh. rewrite fx_get_spec, Hp.
  eexists _, _. split; [reflexivity|].
  unfold node_get. rewrite (proj2 (String.eqb_neq q "$") Hdollar). simpl.
  rewrite lookup_insert_eq. unfold target_get. simpl.
  rewrite (proj2 (String.eqb_neq q "value") Hvalue),
          (proj2 (String.eqb_neq q "attr") Hattr),
          (proj2 (String.eqb_neq q "DOM") Hdom).
  by rewrite lookup_empty, Hinh.
Qed.

Lemma new_node_has_no_children_witness :
  root_truthy (target_lookup (root two_inputs) "user") = false /\
  "name" <> "$" /\ "name" <> "value" /\ "name" <> "attr" /\ "name" <> "DOM" /\
  inherited "name" = false /\
  exists n st',
    fx_get "user" two_inputs = Returned (RNode n) st' /\
    node_get n "name" st' = GData JUndefined.
Proof.
  assert (H1 : "name" <> "$") by discriminate.
  assert (H2 : "name" <> "value") by discriminate.
  assert (H3 : "name" <> "attr") by discriminate.
  assert (H4 : "name" <> "DOM") by discriminate.
  split; [reflexivity|]. split; [exact H1|]. split; [exact H2|].
  split; [exact H3|]. split; [exact H4|]. split; [reflexivity|].
  apply (new_node_has_no_children two_inputs "user" "name");
    [reflexivity|exact H1|exact H2|exact H3|exact H4|reflexivity].
Defined.

(** ** The synchronizer and a replaced [DOM] (FX.js lines 26-39, 47-70) *)

(** X20: while [DOM] is the array of the node, assigning [v] to [value]
    stores [v] in the node, returns [true], and before returning writes
    [v] into every bound element: each one becomes
    [updateDOM element (inferBindingType element) v], so the channel the
    code's classification names holds [v] and [getElementValue] reads
    [v] back; for an element that is neither a checkbox nor a radio
    button that channel is the one the table of spec 4.4 gives.  Other
    elements are untouched.  (The element contents are those
    [updateDOM], as modelled, writes.) *)
Theorem value_push_reaches_every_bound_element
    (st : State) (n : NodeRef) (node : Node) (l : list ElemRef) (v : JsValue) :
  nodes st !! n = Some node ->
  DOM node = JElems l ->
  exists st',
    node_set n "value" v st = Returned true st' /\
    nodes st' !! n = Some (set_value v node) /\
    node_get n "value" st' = GData v /\
    (forall e element,
        e ∈ l -> doc_elements st !! e = Some element ->
        exists element',
          doc_elements st' !! e = Some element' /\
          element' = updateDOM element (inferBindingType element) v /\
          element_prop element' (inferBindingType element') = v /\
          getElementValue element' = v /\
          (~ boxed element ->
           element_prop element' (spec_table_channel element') = v)) /\
    (forall e, e ∉ l -> doc_elements st' !! e = doc_elements st !! e).
Proof.
  intros Hn Hdom. eexists. split; [by apply (node_set_value_spec n node l)|].
  assert (Hn' : alter (set_value v) n (nodes st) !! n = Some (set_value v node))
    by (by rewrite lookup_alter_eq, Hn).
  split_and!.
  - exact Hn'.
  - unfold node_get. simpl. by rewrite Hn'.
  - intros e element Hin He. exists (push_value v element). simpl.
    rewrite (foldl_alter_lookup _ _ _ _ (push_value_idem v)).
    rewrite bool_decide_eq_true_2 by done. rewrite He.
    assert (Hread : element_prop (push_value v element)
                      (inferBindingType (push_value v element)) = v)
      by (rewrite <- getElementValue_element_prop; apply getElementValue_push_value).
    split_and!; [done|done|exact Hread|apply getElementValue_push_value|].
    intros Hbox.
    assert (Hch : spec_table_channel (push_value v element)
                  = inferBindingType (push_value v element)).
    { unfold push_value, updateDOM.
      rewrite spec_table_channel_write_prop, inferBindingType_write_prop.
      symmetry. by apply inferBindingType_table. }
    by rewrite Hch.
  - intros e Hnot. simpl.
    rewrite (foldl_alter_lookup _ _ _ _ (push_value_idem v)).
    by rewrite bool_decide_eq_false_2.
Qed.

Lemma value_push_reaches_every_bound_element_witness :
  nodes bound_inputs !! 0 = Some bound_node /\
  DOM bound_node = JElems [0; 1] /\
  exists st',
    node_set 0 "value" (JStr "John") bound_inputs = Returned true st' /\
    nodes st' !! 0 = Some (set_value (JStr "John") bound_node) /\
    node_get 0 "value" st' = GData (JStr "John") /\
    (forall e element,
        e ∈ [0; 1] -> doc_elements bound_inputs !! e = Some element ->
        exists element',
          doc_elements st' !! e = Some element' /\
          element' = updateDOM element (inferBindingType element) (JStr "John") /\
          element_prop element' (inferBindingType element') = JStr "John" /\
          getElementValue element' = JStr "John" /\
          (~ boxed element ->
           element_prop element' (spec_table_channel element') = JStr "John")) /\
    (forall e, e ∉ [0; 1] ->
               doc_elements st' !! e = doc_elements bound_inputs !! e).
Proof.
  split; [reflexivity|]. split; [reflexivity|].
  apply (value_push_reaches_every_bound_element bound_inputs 0 bound_node [0; 1]
           (JStr "John")); reflexivity.
Defined.

(** X21: the [set] trap lets a caller replace [DOM], and the loops of
    the program then run on whatever was assigned.  After [node.DOM = v]
    for a [v] that is neither an array nor a string (a number, [null],
    an object, an element), the assignment itself returns [true] and
    [DOM] reads as [v]; binding a selector that matches something throws
    a TypeError and leaves the store as it is; and assigning to [value]
    or to [attr] throws a TypeError after the value has been stored in
    the node, with no element touched. *)
Theorem replaced_DOM_breaks_the_loops
    (st : State) (n : NodeRef) (node : Node) (v w : JsValue)
    (selector : string) (e : ElemRef) (elems : list ElemRef) :
  nodes st !! n = Some node ->
  (forall l, v <> JElems l) ->
  (forall t, v <> JStr t) ->
  querySelectorAll st selector = inr (e :: elems) ->
  let st1 := final_state (node_set n "DOM" v st) in
  node_set n "DOM" v st = Returned true st1 /\
  node_get n "DOM" st1 = GData v /\
  bindDOM selector n st1 = Thrown TypeError st1 /\
  node_set n "value" w st1
    = Thrown TypeError (with_nodes (alter (set_value w) n) st1) /\
  node_set n "attr" w st1
    = Thrown TypeError (with_nodes (alter (set_attr w) n) st1).
Proof.
  intros Hn Harr Hstr Hq st1. subst st1. simpl.
  assert (Hn1 : alter (target_set "DOM" v) n (nodes st) !! n = Some (set_DOM v node))
    by (by rewrite lookup_alter_eq, Hn).
  assert (Hno : forall u (nd : Node), DOM nd = v -> forall l, DOM (set_value u nd) <> JElems l)
    by (intros u nd <- l; apply Harr).
  split_and!.
  - reflexivity.
  - unfold node_get. simpl. by rewrite Hn1.
  - unfold bindDOM. simpl. rewrite Hq. simpl. unfold bind, bind_element. simpl.
    rewrite Hn1. simpl.
    destruct v as [| |b|z|t|es|x|l]; try reflexivity.
    + by destruct (Hstr t).
    + by destruct (Harr l).
  - unfold node_set. simpl. unfold bind at 1, target_update, modify.
    unfold bind, updateDOMValues. simpl.
    rewrite lookup_alter_eq, Hn1. simpl.
    by rewrite DOM_forEach_no_array by (intros l; apply Harr).
  - unfold node_set. simpl. unfold bind at 1, target_update, modify.
    unfold bind, updateDOMAttributes. simpl.
    rewrite lookup_alter_eq, Hn1. simpl.
    by rewrite DOM_forEach_no_array by (intros l; apply Harr).
Qed.

Lemma replaced_DOM_breaks_the_loops_witness :
  nodes bound_inputs !! 0 = Some bound_node /\
  (forall l, JNum 5 <> JElems l) /\
  (forall t, JNum 5 <> JStr t) /\
  querySelectorAll bound_inputs "input" = inr [0; 1] /\
  let st1 := final_state (node_set 0 "DOM" (JNum 5) bound_inputs) in
  node_set 0 "DOM" (JNum 5) bound_inputs = Returned true st1 /\
  node_get 0 "DOM" st1 = GData (JNum 5) /\
  bindDOM "input" 0 st1 = Thrown TypeError st1 /\
  node_set 0 "value" (JStr "a") st1
    = Thrown TypeError (with_nodes (alter (set_value (JStr "a")) 0) st1) /\
  node_set 0 "attr" (JStr "a") st1
    = Thrown TypeError (with_nodes (alter (set_attr (JStr "a")) 0) st1).
Proof.
  assert (H1 : forall l, JNum 5 <> JElems l) by (intros l; discriminate).
  assert (H2 : forall t, JNum 5 <> JStr t) by (intros t; discriminate).
  split; [reflexivity|]. split; [exact H1|]. split; [exact H2|].
  split; [reflexivity|].
  apply (replaced_DOM_breaks_the_loops bound_inputs 0 bound_node (JNum 5)
           (JStr "a") "input" 0 [1]); [reflexivity|exact H1|exact H2|reflexivity].
Defined.
